(** * SpectrumMark: mixed-script text measurement, splitting and page mapping

    Shallow embedding of [SpectrumMark.py].

    Modelling conventions.
    - A Python [str] is a [text]: the list of its Unicode code points
      (a code point is an [N]).  A one-character string, as produced by
      iterating over a [str], is a code point.
    - A Python [float] is an exact rational ([Q]): the values are finite
      and the arithmetic does not round.  Equality of widths is [==].
      The values [nan] and [inf], which [float] accepts, have no
      counterpart: every statement is about finite numbers.
    - [page.insert_text], [doc.set_toc] and [doc.close] are called outside
      every [try].  [perform_insertion] below is the run in which the
      document engine accepts all these calls; [perform_insertion_on]
      is the run with an engine that may refuse a call, which then leaves
      the function by an exception.
    - A [fitz.Font] is known only through its method [text_length]; it is
      a record holding that function.
    - Slices [s[:k]] and [s[k:]] with [k >= 0] are [firstn k s] and
      [skipn k s]; like the Python slices they never fail. *)

From Stdlib Require Import Ascii String.
From Stdlib Require Import List Bool Arith NArith ZArith QArith Lqa Lia.
Import ListNotations.

Local Open Scope Q_scope.

(** ** Strings *)

Definition char : Type := N.
Definition text : Type := list char.

(** Text literals with ASCII content. *)
Fixpoint txt (s : string) : text :=
  match s with
  | EmptyString => []
  | String a s' => N_of_ascii a :: txt s'
  end.

(** ** Numbers *)

(** [x > y] on floats. *)
Definition Qgt_bool (x y : Q) : bool :=
  match x ?= y with
  | Gt => true
  | _ => false
  end.

(** ** Fonts *)

(** [font.text_length(text, fontsize=font_size)]. *)
Record Font : Type := { text_length : text -> Q -> Q }.

(** ** Helper functions *)

(** [is_chinese(char)]: ["\u0800" <= char <= "\uFFFF"]. *)
Definition is_chinese (ch : char) : bool :=
  ((0x0800 <=? ch) && (ch <=? 0xFFFF))%N.

(** A segment [(segment, is_chinese)]. *)
Definition segment : Type := (text * bool)%type.

(** The [for ch in text_line[1:]] loop of [segment_text], with its three
    variables [segments], [current_seg] and [current_is_ch]; the result is
    the value of [segments] after the final [append]. *)
Fixpoint segment_loop (rest : text) (segments : list segment)
    (current_seg : text) (current_is_ch : bool) : list segment :=
  match rest with
  | [] => segments ++ [(current_seg, current_is_ch)]
  | ch :: rest' =>
      if Bool.eqb (is_chinese ch) current_is_ch
      then segment_loop rest' segments (current_seg ++ [ch]) current_is_ch
      else segment_loop rest' (segments ++ [(current_seg, current_is_ch)])
                        [ch] (is_chinese ch)
  end.

(** [segment_text(text_line)]. *)
Definition segment_text (text_line : text) : list segment :=
  match text_line with
  | [] => []
  | ch0 :: rest => segment_loop rest [] [ch0] (is_chinese ch0)
  end.

(** The inner loop [for letter in seg] of [compute_line_width]. *)
Definition add_letters (latin_font : Font) (font_size char_adjust : Q)
    (seg : text) (total_width : Q) : Q :=
  fold_left
    (fun total letter =>
       total + (text_length latin_font [letter] font_size + char_adjust))
    seg total_width.

(** [compute_line_width(text_line, chinese_font, latin_font, font_size,
    char_adjust)]. *)
Definition compute_line_width (text_line : text)
    (chinese_font latin_font : Font) (font_size char_adjust : Q) : Q :=
  fold_left
    (fun total_width (s : segment) =>
       let (seg, seg_is_ch) := s in
       if seg_is_ch
       then total_width + text_length chinese_font seg font_size
       else add_letters latin_font font_size char_adjust seg total_width)
    (segment_text text_line) 0.

(** The width [ch_width] that [split_text_line] gives one character. *)
Definition ch_width (chinese_font latin_font : Font)
    (font_size char_adjust : Q) (ch : char) : Q :=
  if is_chinese ch
  then text_length chinese_font [ch] font_size
  else text_length latin_font [ch] font_size + char_adjust.

(** The [for i, ch in enumerate(text_line)] loop of [split_text_line]:
    [rest] is what remains to scan, [i] the index of its first character;
    the result is [split_index] when the loop ends or breaks. *)
Fixpoint split_loop (chinese_font latin_font : Font)
    (font_size char_adjust allowed_width : Q)
    (rest : text) (i : nat) (cum_width : Q) (split_index : nat) : nat :=
  match rest with
  | [] => split_index
  | ch :: rest' =>
      let w := ch_width chinese_font latin_font font_size char_adjust ch in
      if Qle_bool (cum_width + w) allowed_width
      then split_loop chinese_font latin_font font_size char_adjust
             allowed_width rest' (S i) (cum_width + w) (S i)
      else split_index
  end.

(** The split index after the [if split_index == 0] correction. *)
Definition split_index_of (text_line : text) (allowed_width : Q)
    (chinese_font latin_font : Font) (font_size char_adjust : Q) : nat :=
  let split_index :=
    split_loop chinese_font latin_font font_size char_adjust allowed_width
      text_line 0%nat 0 0%nat in
  if Nat.eqb split_index 0 then 1%nat else split_index.

(** [split_text_line(text_line, allowed_width, chinese_font, latin_font,
    font_size, char_adjust)]. *)
Definition split_text_line (text_line : text) (allowed_width : Q)
    (chinese_font latin_font : Font) (font_size char_adjust : Q)
    : text * text :=
  let split_index :=
    split_index_of text_line allowed_width chinese_font latin_font
      font_size char_adjust in
  (firstn split_index text_line, skipn split_index text_line).

(** ** The document, the runtime and the log *)

(** [page.rect.width] and [page.rect.height]. *)
Record Page : Type := { rect_width : Q; rect_height : Q }.

(** One call [page.insert_text((x, y), text, fontname=..., fontsize=...,
    color=..., overlay=True)] on page [doc[ins_page]]. *)
Record Insert : Type := {
  ins_page : nat;
  ins_x : Q;
  ins_y : Q;
  ins_text : text;
  ins_fontname : text;
  ins_fontsize : Q;
  ins_color : list Q
}.

(** An entry [[level, title, page]] of the table of contents. *)
Definition Bookmark : Type := (nat * text * nat)%type.

(** The messages given to [log_func], one constructor per call site, with
    the values the message is formatted from. *)
Inductive Msg : Type :=
| MsgNotNumeric
| MsgBadAlign
| MsgBadColor
| MsgNoTextFile (overlay_txt : text)
| MsgReadFailed
| MsgOpenFailed
| MsgFontFailed (fontname : text)
| MsgInsertPage (page_number : nat) (text_line : text)
| MsgWidths (line_width allowed_width : Q) (text_align : text)
| MsgTwoRows (first_part : text) (x1 first_line_y : Q)
             (second_part : text) (x2 second_line_y : Q)
| MsgOneRow (current_x : Q)
| MsgChineseSeg (seg : text) (seg_width : Q)
| MsgLatinLetter (letter : char) (letter_width : Q)
| MsgBookmark (level : nat) (title : text) (page : nat)
| MsgSaved (output_pdf : text)
| MsgSaveFailed.

(** What [perform_insertion] changes: the calls of [insert_text] made so
    far and the messages logged so far, both oldest first. *)
Record World : Type := { calls : list Insert; logged : list Msg }.

Definition log_func (m : Msg) (w : World) : World :=
  {| calls := calls w; logged := logged w ++ [m] |}.

Definition insert_text (page_index : nat) (x y : Q) (t : text)
    (fontname : text) (fontsize : Q) (color : list Q) (w : World) : World :=
  {| calls := calls w ++
       [{| ins_page := page_index; ins_x := x; ins_y := y; ins_text := t;
           ins_fontname := fontname; ins_fontsize := fontsize;
           ins_color := color |}];
     logged := logged w |}.

(** The builtins and collaborators [perform_insertion] calls.  [None]
    stands for a raised exception. *)
Record Env : Type := {
  py_float : text -> option Q;
  str_lower : text -> text;
  str_strip : text -> text;
  path_exists : text -> bool;
  file_lines : text -> option (list text);
  fitz_open : text -> option (list Page);
  fitz_Font : text -> option Font;
  doc_save : text -> bool
}.

(** How [perform_insertion] ends. *)
Inductive Outcome : Type :=
| Returned (w : World)
| Raised
| Completed (w : World) (toc : list Bookmark) (saved : bool).

(** ** Strings, continued *)

Fixpoint text_eqb (s t : text) : bool :=
  match s, t with
  | [], [] => true
  | a :: s', b :: t' => N.eqb a b && text_eqb s' t'
  | _, _ => false
  end.

(** [s.split(",")]: [cur] holds, reversed, the field being read. *)
Fixpoint split_comma_from (s : text) (cur : text) : list text :=
  match s with
  | [] => [rev cur]
  | c :: s' =>
      if N.eqb c 44 then rev cur :: split_comma_from s' []
      else split_comma_from s' (c :: cur)
  end.

Definition split_comma (s : text) : list text := split_comma_from s [].

(** A list comprehension whose element expression may raise. *)
Fixpoint map_raising {A B : Type} (f : A -> option B) (l : list A)
    : option (list B) :=
  match l with
  | [] => Some []
  | a :: l' =>
      match f a with
      | None => None
      | Some b =>
          match map_raising f l' with
          | None => None
          | Some bs => Some (b :: bs)
          end
      end
  end.

(** [for i in range(count)] with a body that may raise. *)
Fixpoint for_range {S : Type} (body : nat -> S -> option S)
    (indices : list nat) (s : S) : option S :=
  match indices with
  | [] => Some s
  | i :: indices' =>
      match body i s with
      | None => None
      | Some s' => for_range body indices' s'
      end
  end.

(** ** PDF text insertion *)

Definition chinese_font_name : text := txt "china-s".
Definition latin_font_name : text := txt "Times-Roman".

Section Insertion.

Variable E : Env.

(** The [try] block that parses [color_str]; the result is [color_black]
    and whether the warning was logged. *)
Definition parse_color (color_str : text) : list Q * bool :=
  match map_raising (fun c => py_float E (str_strip E c))
                    (split_comma color_str) with
  | None => ([0; 0; 0], true)
  | Some color_values =>
      if negb (Nat.eqb (length color_values) 3) then ([0; 0; 0], true)
      else if existsb (fun c => Qgt_bool c 1) color_values
      then (map (fun c => c / 255) color_values, false)
      else (color_values, false)
  end.

(** [lines = [line.strip() for line in f if line.strip()]]. *)
Definition read_lines (raw : list text) : list text :=
  map (str_strip E)
      (filter (fun line => negb (text_eqb (str_strip E line) [])) raw).

(** The start of a row of width [row_width]; [None] when no branch of the
    [if]/[elif] chain assigns it. *)
Definition start_x (text_align : text) (insert_x page_width row_width : Q)
    : option Q :=
  if text_eqb text_align (txt "left") then Some insert_x
  else if text_eqb text_align (txt "center")
  then Some ((page_width - row_width) / 2)
  else if text_eqb text_align (txt "right")
  then Some (page_width - insert_x - row_width)
  else None.

Section Page.

Variables (chinese_font_obj latin_font_obj : Font).
Variables (font_size char_adjust : Q) (color_black : list Q).
Variable page_index : nat.

(** The loop [for letter in seg] that inserts a non-Chinese segment;
    [verbose] is set in the single-row branch, whose loop also logs. *)
Definition insert_letters (verbose : bool) (y : Q) (seg : text)
    (st : Q * World) : Q * World :=
  fold_left
    (fun (st : Q * World) letter =>
       let (current_x, w) := st in
       let w := insert_text page_index current_x y [letter] latin_font_name
                  font_size color_black w in
       let letter_width := text_length latin_font_obj [letter] font_size in
       let w := if verbose
                then log_func (MsgLatinLetter letter letter_width) w
                else w in
       (current_x + (letter_width + char_adjust), w))
    seg st.

(** The loop [for seg, seg_is_ch in segments] that inserts one row. *)
Definition insert_row (verbose : bool) (y : Q) (row : text)
    (st : Q * World) : Q * World :=
  fold_left
    (fun (st : Q * World) (s : segment) =>
       let (seg, seg_is_ch) := s in
       if seg_is_ch
       then
         let (current_x, w) := st in
         let w := insert_text page_index current_x y seg chinese_font_name
                    font_size color_black w in
         let seg_width := text_length chinese_font_obj seg font_size in
         let w := if verbose
                  then log_func (MsgChineseSeg seg seg_width) w
                  else w in
         (current_x + seg_width, w)
       else insert_letters verbose y seg st)
    (segment_text row) st.

(** The body of the loop over the pages, up to the [toc.append]. *)
Definition insert_line (insert_x insert_y : Q) (text_align : text)
    (text_line : text) (page : Page) (w : World) : option World :=
  let page_height := rect_height page in
  let page_width := rect_width page in
  let adjusted_y := page_height - insert_y in
  let line_width :=
    compute_line_width text_line chinese_font_obj latin_font_obj font_size
      char_adjust in
  let allowed_width := page_width - 2 * insert_x in
  let w := log_func (MsgInsertPage (page_index + 1) text_line) w in
  let w := log_func (MsgWidths line_width allowed_width text_align) w in
  if Qgt_bool line_width allowed_width then
    let (first_part, second_part) :=
      split_text_line text_line allowed_width chinese_font_obj
        latin_font_obj font_size char_adjust in
    let first_line_width :=
      compute_line_width first_part chinese_font_obj latin_font_obj
        font_size char_adjust in
    let second_line_width :=
      compute_line_width second_part chinese_font_obj latin_font_obj
        font_size char_adjust in
    match start_x text_align insert_x page_width first_line_width,
          start_x text_align insert_x page_width second_line_width with
    | Some x1, Some x2 =>
        let first_line_y := adjusted_y - font_size - 2 in
        let second_line_y := adjusted_y in
        let w := log_func (MsgTwoRows first_part x1 first_line_y
                             second_part x2 second_line_y) w in
        let w := snd (insert_row false first_line_y first_part (x1, w)) in
        let w := snd (insert_row false second_line_y second_part (x2, w)) in
        Some w
    | _, _ => None
    end
  else
    match start_x text_align insert_x page_width line_width with
    | Some current_x =>
        let w := log_func (MsgOneRow current_x) w in
        Some (snd (insert_row true adjusted_y text_line (current_x, w)))
    | None => None
    end.

End Page.

(** One turn of the loop [for i in range(count)]: the lookups [lines[i]]
    and [doc[i]], the insertion of the line, and [toc.append].  The state
    is the world and [toc]. *)
Definition page_step (chinese_font_obj latin_font_obj : Font)
    (font_size char_adjust : Q) (color_black : list Q)
    (insert_x insert_y : Q) (text_align : text)
    (lines : list text) (doc : list Page)
    (i : nat) (st : World * list Bookmark) : option (World * list Bookmark) :=
  let (w, toc) := st in
  match nth_error lines i, nth_error doc i with
  | Some text_line, Some page =>
      match insert_line chinese_font_obj latin_font_obj font_size
              char_adjust color_black i insert_x insert_y text_align
              text_line page w with
      | Some w => Some (w, toc ++ [(1%nat, text_line, (i + 1)%nat)])
      | None => None
      end
  | _, _ => None
  end.

(** The loop [for i in range(count)]. *)
Definition insert_pages (chinese_font_obj latin_font_obj : Font)
    (font_size char_adjust : Q) (color_black : list Q)
    (insert_x insert_y : Q) (text_align : text)
    (lines : list text) (doc : list Page) (count : nat)
    (st : World * list Bookmark) : option (World * list Bookmark) :=
  for_range
    (page_step chinese_font_obj latin_font_obj font_size char_adjust
       color_black insert_x insert_y text_align lines doc)
    (seq 0 count) st.

(** [perform_insertion(input_pdf, overlay_txt, output_pdf, insert_x,
    insert_y, font_size, color_str, text_align, log_func)], started with
    nothing inserted and nothing logged. *)
Definition perform_insertion (input_pdf overlay_txt output_pdf
    insert_x insert_y font_size color_str text_align : text) : Outcome :=
  let w := {| calls := []; logged := [] |} in
  match py_float E insert_x, py_float E insert_y, py_float E font_size with
  | Some insert_x, Some insert_y, Some font_size =>
      let text_align := str_strip E (str_lower E text_align) in
      let (w, text_align) :=
        if negb (existsb (text_eqb text_align)
                   [txt "left"; txt "center"; txt "right"])
        then (log_func MsgBadAlign w, txt "left")
        else (w, text_align) in
      let (color_black, warned) := parse_color color_str in
      let w := if warned then log_func MsgBadColor w else w in
      if negb (path_exists E overlay_txt)
      then Returned (log_func (MsgNoTextFile overlay_txt) w)
      else
        match file_lines E overlay_txt with
        | None => Returned (log_func MsgReadFailed w)
        | Some raw =>
            let lines := read_lines raw in
            match fitz_open E input_pdf with
            | None => Returned (log_func MsgOpenFailed w)
            | Some doc =>
                match fitz_Font E chinese_font_name with
                | None =>
                    Returned (log_func (MsgFontFailed chinese_font_name) w)
                | Some chinese_font_obj =>
                    match fitz_Font E latin_font_name with
                    | None => Raised
                    | Some latin_font_obj =>
                        let char_adjust := -0.5 in
                        let num_lines := length lines in
                        let num_pages := length doc in
                        let count := Nat.min num_lines num_pages in
                        match insert_pages chinese_font_obj latin_font_obj
                                font_size char_adjust color_black insert_x
                                insert_y text_align lines doc count
                                (w, []) with
                        | None => Raised
                        | Some (w, toc) =>
                            let w :=
                              fold_left
                                (fun w (b : Bookmark) =>
                                   let '(level, title, page) := b in
                                   log_func (MsgBookmark level title page) w)
                                toc w in
                            if doc_save E output_pdf
                            then Completed
                                   (log_func (MsgSaved output_pdf) w) toc true
                            else Completed
                                   (log_func MsgSaveFailed w) toc false
                        end
                    end
                end
            end
        end
  | _, _, _ => Returned (log_func MsgNotNumeric w)
  end.

End Insertion.

(** ** PDF text insertion with an engine that may refuse *)

(** What the document engine does with the calls made outside every [try]:
    [page.insert_text] raises when [accepts_text] is [false] of the call,
    [doc.set_toc(toc)] raises when [accepts_toc toc] is [false], and
    [doc.close()] raises when [closes] is [false]. *)
Record Engine : Type := {
  accepts_text : Insert -> bool;
  accepts_toc : list Bookmark -> bool;
  closes : bool
}.

(** [page.insert_text(...)]; [None] stands for the exception. *)
Definition page_insert_text (R : Engine) (page_index : nat) (x y : Q)
    (t : text) (fontname : text) (fontsize : Q) (color : list Q) (w : World)
    : option World :=
  if accepts_text R
       {| ins_page := page_index; ins_x := x; ins_y := y; ins_text := t;
          ins_fontname := fontname; ins_fontsize := fontsize;
          ins_color := color |}
  then Some (insert_text page_index x y t fontname fontsize color w)
  else None.

Section InsertionOn.

Variable R : Engine.
Variable E : Env.

Section PageOn.

Variables (chinese_font_obj latin_font_obj : Font).
Variables (font_size char_adjust : Q) (color_black : list Q).
Variable page_index : nat.

(** The loop [for letter in seg]. *)
Fixpoint insert_letters_on (verbose : bool) (y : Q) (seg : text)
    (st : Q * World) : option (Q * World) :=
  match seg with
  | [] => Some st
  | letter :: seg' =>
      let (current_x, w) := st in
      match page_insert_text R page_index current_x y [letter]
              latin_font_name font_size color_black w with
      | None => None
      | Some w =>
          let letter_width := text_length latin_font_obj [letter] font_size in
          let w := if verbose
                   then log_func (MsgLatinLetter letter letter_width) w
                   else w in
          insert_letters_on verbose y seg'
            (current_x + (letter_width + char_adjust), w)
      end
  end.

(** The loop [for seg, seg_is_ch in segments]. *)
Fixpoint insert_segments_on (verbose : bool) (y : Q)
    (segments : list segment) (st : Q * World) : option (Q * World) :=
  match segments with
  | [] => Some st
  | (seg, seg_is_ch) :: segments' =>
      let after :=
        if seg_is_ch
        then
          let (current_x, w) := st in
          match page_insert_text R page_index current_x y seg
                  chinese_font_name font_size color_black w with
          | None => None
          | Some w =>
              let seg_width := text_length chinese_font_obj seg font_size in
              let w := if verbose
                       then log_func (MsgChineseSeg seg seg_width) w
                       else w in
              Some (current_x + seg_width, w)
          end
        else insert_letters_on verbose y seg st in
      match after with
      | None => None
      | Some st' => insert_segments_on verbose y segments' st'
      end
  end.

Definition insert_row_on (verbose : bool) (y : Q) (row : text)
    (st : Q * World) : option (Q * World) :=
  insert_segments_on verbose y (segment_text row) st.

(** The body of the loop over the pages, up to the [toc.append]. *)
Definition insert_line_on (insert_x insert_y : Q) (text_align : text)
    (text_line : text) (page : Page) (w : World) : option World :=
  let page_height := rect_height page in
  let page_width := rect_width page in
  let adjusted_y := page_height - insert_y in
  let line_width :=
    compute_line_width text_line chinese_font_obj latin_font_obj font_size
      char_adjust in
  let allowed_width := page_width - 2 * insert_x in
  let w := log_func (MsgInsertPage (page_index + 1) text_line) w in
  let w := log_func (MsgWidths line_width allowed_width text_align) w in
  if Qgt_bool line_width allowed_width then
    let (first_part, second_part) :=
      split_text_line text_line allowed_width chinese_font_obj
        latin_font_obj font_size char_adjust in
    let first_line_width :=
      compute_line_width first_part chinese_font_obj latin_font_obj
        font_size char_adjust in
    let second_line_width :=
      compute_line_width second_part chinese_font_obj latin_font_obj
        font_size char_adjust in
    match start_x text_align insert_x page_width first_line_width,
          start_x text_align insert_x page_width second_line_width with
    | Some x1, Some x2 =>
        let first_line_y := adjusted_y - font_size - 2 in
        let second_line_y := adjusted_y in
        let w := log_func (MsgTwoRows first_part x1 first_line_y
                             second_part x2 second_line_y) w in
        match insert_row_on false first_line_y first_part (x1, w) with
        | None => None
        | Some (_, w) =>
            match insert_row_on false second_line_y second_part (x2, w) with
            | None => None
            | Some (_, w) => Some w
            end
        end
    | _, _ => None
    end
  else
    match start_x text_align insert_x page_width line_width with
    | Some current_x =>
        let w := log_func (MsgOneRow current_x) w in
        match insert_row_on true adjusted_y text_line (current_x, w) with
        | None => None
        | Some (_, w) => Some w
        end
    | None => None
    end.

End PageOn.

(** One turn of the loop [for i in range(count)]. *)
Definition page_step_on (chinese_font_obj latin_font_obj : Font)
    (font_size char_adjust : Q) (color_black : list Q)
    (insert_x insert_y : Q) (text_align : text)
    (lines : list text) (doc : list Page)
    (i : nat) (st : World * list Bookmark) : option (World * list Bookmark) :=
  let (w, toc) := st in
  match nth_error lines i, nth_error doc i with
  | Some text_line, Some page =>
      match insert_line_on chinese_font_obj latin_font_obj font_size
              char_adjust color_black i insert_x insert_y text_align
              text_line page w with
      | Some w => Some (w, toc ++ [(1%nat, text_line, (i + 1)%nat)])
      | None => None
      end
  | _, _ => None
  end.

(** The loop [for i in range(count)]. *)
Definition insert_pages_on (chinese_font_obj latin_font_obj : Font)
    (font_size char_adjust : Q) (color_black : list Q)
    (insert_x insert_y : Q) (text_align : text)
    (lines : list text) (doc : list Page) (count : nat)
    (st : World * list Bookmark) : option (World * list Bookmark) :=
  for_range
    (page_step_on chinese_font_obj latin_font_obj font_size char_adjust
       color_black insert_x insert_y text_align lines doc)
    (seq 0 count) st.

(** [perform_insertion(input_pdf, overlay_txt, output_pdf, insert_x,
    insert_y, font_size, color_str, text_align, log_func)] with the engine
    [R], started with nothing inserted and nothing logged. *)
Definition perform_insertion_on (input_pdf overlay_txt output_pdf
    insert_x insert_y font_size color_str text_align : text) : Outcome :=
  let w := {| calls := []; logged := [] |} in
  match py_float E insert_x, py_float E insert_y, py_float E font_size with
  | Some insert_x, Some insert_y, Some font_size =>
      let text_align := str_strip E (str_lower E text_align) in
      let (w, text_align) :=
        if negb (existsb (text_eqb text_align)
                   [txt "left"; txt "center"; txt "right"])
        then (log_func MsgBadAlign w, txt "left")
        else (w, text_align) in
      let (color_black, warned) := parse_color E color_str in
      let w := if warned then log_func MsgBadColor w else w in
      if negb (path_exists E overlay_txt)
      then Returned (log_func (MsgNoTextFile overlay_txt) w)
      else
        match file_lines E overlay_txt with
        | None => Returned (log_func MsgReadFailed w)
        | Some raw =>
            let lines := read_lines E raw in
            match fitz_open E input_pdf with
            | None => Returned (log_func MsgOpenFailed w)
            | Some doc =>
                match fitz_Font E chinese_font_name with
                | None =>
                    Returned (log_func (MsgFontFailed chinese_font_name) w)
                | Some chinese_font_obj =>
                    match fitz_Font E latin_font_name with
                    | None => Raised
                    | Some latin_font_obj =>
                        let char_adjust := -0.5 in
                        let num_lines := length lines in
                        let num_pages := length doc in
                        let count := Nat.min num_lines num_pages in
                        match insert_pages_on chinese_font_obj
                                latin_font_obj font_size char_adjust
                                color_black insert_x insert_y text_align
                                lines doc count (w, []) with
                        | None => Raised
                        | Some (w, toc) =>
                            if negb (accepts_toc R toc) then Raised
                            else
                              let w :=
                                fold_left
                                  (fun w (b : Bookmark) =>
                                     let '(level, title, page) := b in
                                     log_func
                                       (MsgBookmark level title page) w)
                                  toc w in
                              let (w, saved) :=
                                if doc_save E output_pdf
                                then (log_func (MsgSaved output_pdf) w, true)
                                else (log_func MsgSaveFailed w, false) in
                              if closes R then Completed w toc saved
                              else Raised
                        end
                    end
                end
            end
        end
  | _, _, _ => Returned (log_func MsgNotNumeric w)
  end.

End InsertionOn.

(** ** The measurement as the specification words it *)

Definition Qsum (l : list Q) : Q := fold_right Qplus 0 l.

(** The width of one run: a WIDE run is measured by one call on the whole
    run, a NARROW run character by character, each with [char_adjust]. *)
Definition run_width (chinese_font latin_font : Font)
    (font_size char_adjust : Q) (s : segment) : Q :=
  if snd s
  then text_length chinese_font (fst s) font_size
  else Qsum (map (fun ch => text_length latin_font [ch] font_size
                            + char_adjust) (fst s)).

(** The sum of the widths of the runs of a line. *)
Definition spec_measure (text_line : text) (chinese_font latin_font : Font)
    (font_size char_adjust : Q) : Q :=
  Qsum (map (run_width chinese_font latin_font font_size char_adjust)
            (segment_text text_line)).

(** Adjacent runs differ in class. *)
Fixpoint adjacent_differ (l : list segment) : Prop :=
  match l with
  | s1 :: ((s2 :: _) as l') => snd s1 <> snd s2 /\ adjacent_differ l'
  | _ => True
  end.

(** ** The splitting as the specification words it *)

(** The running sum of the splitter after the characters of [s], started
    from [cum_width]. *)
Definition run_from (chinese_font latin_font : Font)
    (font_size char_adjust : Q) (cum_width : Q) (s : text) : Q :=
  fold_left
    (fun cum ch =>
       cum + ch_width chinese_font latin_font font_size char_adjust ch)
    s cum_width.

(** The running sum stays within [allowed_width] after each of the first
    [k] characters of [line]. *)
Definition stays_within (chinese_font latin_font : Font)
    (font_size char_adjust allowed_width : Q) (line : text) (k : nat)
    : Prop :=
  forall j, (1 <= j <= k)%nat ->
    run_from chinese_font latin_font font_size char_adjust 0 (firstn j line)
    <= allowed_width.

(** [prefix] is the longest prefix of [line] along which the running sum
    stays within [allowed_width]: the scan commits its characters and
    stops at the first character that would exceed. *)
Definition maximal_fitting_prefix (chinese_font latin_font : Font)
    (font_size char_adjust allowed_width : Q) (line prefix : text) : Prop :=
  exists k, (k <= length line)%nat /\ prefix = firstn k line /\
    stays_within chinese_font latin_font font_size char_adjust
      allowed_width line k /\
    ((k < length line)%nat ->
     ~ run_from chinese_font latin_font font_size char_adjust 0
         (firstn (S k) line) <= allowed_width).

(** ** Rows of inserted text *)

(** The calls [r] all go to page [page_index] at height [y], and their
    texts, in order, make up [row]. *)
Definition is_row (page_index : nat) (y : Q) (row : text)
    (r : list Insert) : Prop :=
  Forall (fun c => ins_page c = page_index /\ ins_y c = y) r /\
  concat (map ins_text r) = row.

(** The text inserted on page [page_index], in the order of insertion. *)
Definition text_on_page (page_index : nat) (cs : list Insert) : text :=
  concat (map ins_text
            (filter (fun c => Nat.eqb (ins_page c) page_index) cs)).

(** The lines announced page by page in the log. *)
Fixpoint announced (ms : list Msg) : list (nat * text) :=
  match ms with
  | [] => []
  | MsgInsertPage page_number text_line :: ms' =>
      (page_number, text_line) :: announced ms'
  | _ :: ms' => announced ms'
  end.

(** From [w] to [w'] the calls [r] were made, and no line was announced. *)
Definition appends (w w' : World) (r : list Insert) : Prop :=
  calls w' = calls w ++ r /\ announced (logged w') = announced (logged w).

Definition valid_align (text_align : text) : Prop :=
  In text_align [txt "left"; txt "center"; txt "right"].

Definition unit_interval (c : Q) : Prop := 0 <= c /\ c <= 1.

(** ** A concrete runtime for the examples *)

(** A font in which every character has the same advance. *)
Definition fixed_font (advance : Q) : Font :=
  {| text_length := fun s _ => inject_Z (Z.of_nat (length s)) * advance |}.

(** A font whose text length is the sum of the advances of the
    characters. *)
Definition advance_font (advance : char -> Q) : Font :=
  {| text_length := fun s _ => Qsum (map advance s) |}.

(** A narrow font in which [b] advances by a quarter of a point and every
    other character by 5. *)
Definition thin_b_font : Font :=
  advance_font (fun ch => if N.eqb ch 98 then 0.25 else 5).

(** The line [Hello] followed by the two ideographs U+4E16 U+754C. *)
Definition hello_shijie : text := txt "Hello" ++ [0x4E16; 0x754C]%N.

(** [lower] on ASCII letters. *)
Definition ascii_lower (s : text) : text :=
  map (fun c => if ((65 <=? c) && (c <=? 90))%N then (c + 32)%N else c) s.

Definition is_space (c : char) : bool :=
  (N.eqb c 32 || ((9 <=? c) && (c <=? 13)))%N.

Fixpoint lstrip (s : text) : text :=
  match s with
  | c :: s' => if is_space c then lstrip s' else s
  | [] => []
  end.

(** [strip] of ASCII white space. *)
Definition ascii_strip (s : text) : text := rev (lstrip (rev (lstrip s))).

(** The value of a string of decimal digits, read after [acc]. *)
Fixpoint digits (s : text) (acc : Z) : option Z :=
  match s with
  | [] => Some acc
  | c :: s' =>
      if ((48 <=? c) && (c <=? 57))%N
      then digits s' (10 * acc + Z.of_N (c - 48))%Z
      else None
  end.

(** The part of [s] before the first [.] and the part after it. *)
Fixpoint split_point (s : text) : text * option text :=
  match s with
  | [] => ([], None)
  | c :: s' =>
      if N.eqb c 46 then ([], Some s')
      else let (a, b) := split_point s' in (c :: a, b)
  end.

Definition unsigned_decimal (s : text) : option Q :=
  let (whole, frac) := split_point s in
  match whole, digits whole 0 with
  | _ :: _, Some n =>
      match frac with
      | None => Some (inject_Z n)
      | Some f =>
          match digits f 0 with
          | Some m =>
              Some (inject_Z n
                    + inject_Z m / inject_Z (10 ^ Z.of_nat (length f)))
          | None => None
          end
      end
  | _, _ => None
  end.

(** [float] on plain decimal literals: an optional sign, digits, and an
    optional fraction. *)
Definition decimal_float (s : text) : option Q :=
  match s with
  | 45%N :: s' => option_map Qopp (unsigned_decimal s')
  | _ => unsigned_decimal s
  end.

(** A runtime in which the text file holds [raw], the document has the
    pages [doc], every wide character advances by 10 and every narrow
    character by 5, and saving succeeds. *)
Definition demo_env (raw : list text) (doc : list Page) : Env :=
  {| py_float := decimal_float;
     str_lower := ascii_lower;
     str_strip := ascii_strip;
     path_exists := fun _ => true;
     file_lines := fun _ => Some raw;
     fitz_open := fun _ => Some doc;
     fitz_Font := fun name =>
       if text_eqb name chinese_font_name then Some (fixed_font 10)
       else Some (fixed_font 5);
     doc_save := fun _ => true |}.


(** An engine that refuses the text whose color has a component outside
    [0, 1], and accepts every table of contents. *)
Definition demo_engine : Engine :=
  {| accepts_text := fun c =>
       forallb (fun q => Qle_bool 0 q && Qle_bool q 1) (ins_color c);
     accepts_toc := fun _ => true;
     closes := true |}.

Definition a4 : Page := {| rect_width := 595; rect_height := 842 |}.

(** ** Comparing runs *)

(** The world [w] with the message [m] logged before everything else. *)
Definition log_first (m : Msg) (w : World) : World :=
  {| calls := calls w; logged := m :: logged w |}.

Definition outcome_log_first (m : Msg) (o : Outcome) : Outcome :=
  match o with
  | Returned w => Returned (log_first m w)
  | Raised => Raised
  | Completed w toc saved => Completed (log_first m w) toc saved
  end.

(** The part of [perform_insertion] from [os.path.exists(overlay_txt)]
    on, as a function of the configuration read before it: the numbers
    [insert_x], [insert_y] and [font_size], the color, the alignment, and
    the world [w] with the warnings logged so far. *)
Definition insertion_after_config (E : Env)
    (input_pdf overlay_txt output_pdf : text) (insert_x insert_y font_size : Q)
    (color_black : list Q) (text_align : text) (w : World) : Outcome :=
  if negb (path_exists E overlay_txt)
  then Returned (log_func (MsgNoTextFile overlay_txt) w)
  else
    match file_lines E overlay_txt with
    | None => Returned (log_func MsgReadFailed w)
    | Some raw =>
        let lines := read_lines E raw in
        match fitz_open E input_pdf with
        | None => Returned (log_func MsgOpenFailed w)
        | Some doc =>
            match fitz_Font E chinese_font_name with
            | None =>
                Returned (log_func (MsgFontFailed chinese_font_name) w)
            | Some chinese_font_obj =>
                match fitz_Font E latin_font_name with
                | None => Raised
                | Some latin_font_obj =>
                    let char_adjust := -0.5 in
                    let num_lines := length lines in
                    let num_pages := length doc in
                    let count := Nat.min num_lines num_pages in
                    match insert_pages chinese_font_obj latin_font_obj
                            font_size char_adjust color_black insert_x
                            insert_y text_align lines doc count
                            (w, []) with
                    | None => Raised
                    | Some (w, toc) =>
                        let w :=
                          fold_left
                            (fun w (b : Bookmark) =>
                               let '(level, title, page) := b in
                               log_func (MsgBookmark level title page) w)
                            toc w in
                        if doc_save E output_pdf
                        then Completed
                               (log_func (MsgSaved output_pdf) w) toc true
                        else Completed
                               (log_func MsgSaveFailed w) toc false
                    end
                end
            end
        end
    end.

(** The messages that report why a run was given up. *)
Definition reports_failure (m : Msg) : bool :=
  match m with
  | MsgNotNumeric | MsgNoTextFile _ | MsgReadFailed | MsgOpenFailed
  | MsgFontFailed _ => true
  | _ => false
  end.

(** The call [c] inserts a whole run of wide characters with the Chinese
    font, or one narrow character with the Latin font. *)
Definition font_matches_text (c : Insert) : Prop :=
  (ins_fontname c = chinese_font_name /\ ins_text c <> [] /\
   Forall (fun ch => is_chinese ch = true) (ins_text c)) \/
  (ins_fontname c = latin_font_name /\
   exists ch, ins_text c = [ch] /\ is_chinese ch = false).

(** * Properties *)

(** ** Examples *)

Example segment_hello :
  segment_text hello_shijie = [(txt "Hello", false); ([0x4E16; 0x754C]%N, true)].
Proof. reflexivity. Qed.

Example width_hello :
  compute_line_width hello_shijie (fixed_font 10) (fixed_font 5) 12 (-0.5)
  == 42.5.
Proof. vm_compute. reflexivity. Qed.

Example split_ABCDE :
  split_text_line (txt "ABCDE") 10 (fixed_font 10) (fixed_font 3) 12 (-0.5)
  = (txt "ABCD", txt "E").
Proof. reflexivity. Qed.

Example split_forced :
  split_text_line (txt "ABCDE") 1 (fixed_font 10) (fixed_font 5) 12 (-0.5)
  = (txt "A", txt "BCDE").
Proof. reflexivity. Qed.

Example decimal_float_examples :
  decimal_float (txt "255") = Some 255 /\
  decimal_float (txt "abc") = None /\
  option_map (Qeq_bool 0.5) (decimal_float (txt "0.5")) = Some true.
Proof. repeat split. Qed.

Example three_lines_five_pages :
  exists w,
    perform_insertion
      (demo_env [txt "one"; txt " "; txt "two "; txt "three"]
                [a4; a4; a4; a4; a4])
      (txt "in.pdf") (txt "lines.txt") (txt "out.pdf")
      (txt "60") (txt "8") (txt "12") (txt "0,0,0") (txt "center")
    = Completed w [(1, txt "one", 1); (1, txt "two", 2); (1, txt "three", 3)]%nat
        true.
Proof. eexists. vm_compute. reflexivity. Qed.

Example align_justify_falls_back :
  exists w,
    perform_insertion (demo_env [txt "one"] [a4])
      (txt "in.pdf") (txt "lines.txt") (txt "out.pdf")
      (txt "60") (txt "8") (txt "12") (txt "0,0,0") (txt "justify")
    = Completed w [(1, txt "one", 1)]%nat true /\
    hd_error (logged w) = Some MsgBadAlign /\
    option_map ins_x (hd_error (calls w)) = Some 60.
Proof. eexists. vm_compute. repeat split. Qed.

(** ** Segmentation *)

Section Segmentation.

(** The segments already collected stay in front of the ones to come. *)
Lemma segment_loop_segments rest : forall segments current_seg current_is_ch,
  segment_loop rest segments current_seg current_is_ch
  = segments ++ segment_loop rest [] current_seg current_is_ch.
Proof.
  induction rest as [|ch rest IH]; intros segs cur b; simpl.
  - reflexivity.
  - destruct (Bool.eqb (is_chinese ch) b).
    + apply IH.
    + rewrite IH. rewrite (IH [(cur, b)]). now rewrite <- app_assoc.
Qed.

(** One step of the loop, read on the result. *)
Lemma segment_loop_step ch rest current_seg current_is_ch :
  segment_loop (ch :: rest) [] current_seg current_is_ch
  = if Bool.eqb (is_chinese ch) current_is_ch
    then segment_loop rest [] (current_seg ++ [ch]) current_is_ch
    else (current_seg, current_is_ch)
         :: segment_loop rest [] [ch] (is_chinese ch).
Proof.
  simpl. destruct (Bool.eqb (is_chinese ch) current_is_ch); [reflexivity|].
  now rewrite segment_loop_segments.
Qed.

Lemma segment_loop_concat rest : forall cur b,
  concat (map fst (segment_loop rest [] cur b)) = cur ++ rest.
Proof.
  induction rest as [|ch rest IH]; intros cur b.
  - simpl. now rewrite !app_nil_r.
  - rewrite segment_loop_step.
    destruct (Bool.eqb (is_chinese ch) b).
    + rewrite IH. now rewrite <- app_assoc.
    + simpl. now rewrite IH.
Qed.

Lemma segment_loop_nonempty rest : forall cur b,
  cur <> [] ->
  Forall (fun s : segment => fst s <> []) (segment_loop rest [] cur b).
Proof.
  induction rest as [|ch rest IH]; intros cur b Hcur.
  - simpl. repeat constructor. exact Hcur.
  - rewrite segment_loop_step.
    destruct (Bool.eqb (is_chinese ch) b).
    + apply IH. now destruct cur.
    + constructor; [exact Hcur|]. apply IH. discriminate.
Qed.

Lemma segment_loop_same_class rest : forall cur b,
  Forall (fun ch => is_chinese ch = b) cur ->
  Forall (fun s : segment => Forall (fun ch => is_chinese ch = snd s) (fst s))
         (segment_loop rest [] cur b).
Proof.
  induction rest as [|ch rest IH]; intros cur b Hcur.
  - simpl. repeat constructor. exact Hcur.
  - rewrite segment_loop_step.
    destruct (Bool.eqb (is_chinese ch) b) eqn:Hb.
    + apply IH. apply Forall_app. split; [exact Hcur|].
      repeat constructor. now apply eqb_prop.
    + constructor; [exact Hcur|]. apply IH. now repeat constructor.
Qed.

(** The first run of the result carries the class being collected. *)
Lemma segment_loop_head rest : forall cur b,
  exists seg tail, segment_loop rest [] cur b = (seg, b) :: tail.
Proof.
  induction rest as [|ch rest IH]; intros cur b.
  - simpl. eauto.
  - rewrite segment_loop_step.
    destruct (Bool.eqb (is_chinese ch) b); eauto.
Qed.

Lemma segment_loop_adjacent rest : forall cur b,
  adjacent_differ (segment_loop rest [] cur b).
Proof.
  induction rest as [|ch rest IH]; intros cur b.
  - simpl. exact I.
  - rewrite segment_loop_step.
    destruct (Bool.eqb (is_chinese ch) b) eqn:Hb.
    + apply IH.
    + destruct (segment_loop_head rest [ch] (is_chinese ch))
        as (seg & tail & Heq).
      specialize (IH [ch] (is_chinese ch)). rewrite Heq in *.
      simpl. split; [|exact IH].
      intros Hc. rewrite Hc, eqb_reflx in Hb. discriminate.
Qed.

(** The runs of a line that starts with a run [run] of class [b], followed
    by nothing or by a character of the other class. *)
Lemma segment_text_first_run run rest b :
  run <> [] ->
  Forall (fun ch => is_chinese ch = b) run ->
  match rest with [] => True | ch :: _ => is_chinese ch <> b end ->
  segment_text (run ++ rest) = (run, b) :: segment_text rest.
Proof.
  intros Hne Hrun Hrest.
  destruct run as [|c0 run]; [congruence|]. clear Hne.
  inversion Hrun as [|? ? Hc0 Hrun']; subst. simpl.
  assert (G : forall cur,
             segment_loop (run ++ rest) [] cur (is_chinese c0)
             = (cur ++ run, is_chinese c0) :: segment_text rest).
  { clear Hrun. induction run as [|c run IH]; intros cur.
    - rewrite app_nil_r. simpl. destruct rest as [|ch rest].
      + reflexivity.
      + rewrite segment_loop_step.
        destruct (Bool.eqb (is_chinese ch) (is_chinese c0)) eqn:Hb.
        * apply eqb_prop in Hb. contradiction.
        * reflexivity.
    - inversion Hrun' as [|? ? Hc Hrun'']; subst.
      change ((c :: run) ++ rest) with (c :: (run ++ rest)).
      rewrite segment_loop_step. rewrite Hc, eqb_reflx.
      rewrite (IH Hrun''). now rewrite <- app_assoc. }
  apply (G [c0]).
Qed.

Lemma segment_text_concat (line : text) :
  concat (map fst (segment_text line)) = line.
Proof.
  destruct line as [|ch0 rest]; [reflexivity|].
  apply segment_loop_concat.
Qed.

Lemma segment_text_same_class (line : text) :
  Forall (fun s : segment => Forall (fun ch => is_chinese ch = snd s) (fst s))
         (segment_text line).
Proof.
  destruct line as [|ch0 rest]; [constructor|].
  apply segment_loop_same_class. now repeat constructor.
Qed.

End Segmentation.

(** C2. For every line, [segment_text] returns runs whose contents,
    concatenated in order, give back the line; every run is non-empty; all
    the characters of a run have the class of the run; adjacent runs have
    different classes; and the empty line has no run. *)
Theorem segment_text_partition (line : text) :
  concat (map fst (segment_text line)) = line /\
  Forall (fun s : segment => fst s <> []) (segment_text line) /\
  Forall (fun s : segment => Forall (fun ch => is_chinese ch = snd s) (fst s))
         (segment_text line) /\
  adjacent_differ (segment_text line) /\
  segment_text [] = [].
Proof.
  split; [apply segment_text_concat|].
  split; [|split; [apply segment_text_same_class|]].
  - destruct line as [|ch0 rest]; [constructor|].
    apply segment_loop_nonempty. discriminate.
  - split; [|reflexivity].
    destruct line as [|ch0 rest]; [exact I|].
    apply segment_loop_adjacent.
Qed.

(** ** Width of a line *)

Section Width.

Variables (chinese_font latin_font : Font) (font_size char_adjust : Q).

Lemma add_letters_sum seg : forall total_width,
  add_letters latin_font font_size char_adjust seg total_width
  == total_width
     + Qsum (map (fun ch => text_length latin_font [ch] font_size
                            + char_adjust) seg).
Proof.
  unfold add_letters.
  induction seg as [|letter seg IH]; intros total; simpl.
  - ring.
  - rewrite IH. ring.
Qed.

Lemma width_loop_sum segments : forall total_width,
  fold_left
    (fun total_width (s : segment) =>
       let (seg, seg_is_ch) := s in
       if seg_is_ch
       then total_width + text_length chinese_font seg font_size
       else add_letters latin_font font_size char_adjust seg total_width)
    segments total_width
  == total_width
     + Qsum (map (run_width chinese_font latin_font font_size char_adjust)
                 segments).
Proof.
  induction segments as [|[seg [|]] segments IH]; intros total; simpl.
  - ring.
  - rewrite IH. unfold run_width. simpl. ring.
  - rewrite IH. rewrite add_letters_sum. unfold run_width. simpl. ring.
Qed.

Lemma compute_line_width_runs text_line :
  compute_line_width text_line chinese_font latin_font font_size char_adjust
  == spec_measure text_line chinese_font latin_font font_size char_adjust.
Proof.
  unfold compute_line_width, spec_measure.
  rewrite width_loop_sum. ring.
Qed.

End Width.

(** C3. For every line, [compute_line_width] is the sum over the runs of
    the line of one wide-font measurement of the whole run for a WIDE run
    and of the per-character narrow-font widths plus [char_adjust] for a
    NARROW run; with narrow characters of width 5, wide characters of width
    10 and [char_adjust] -0.5, the line [Hello] followed by two ideographs
    measures 42.5. *)
Theorem compute_line_width_sum_of_runs (text_line : text)
    (chinese_font latin_font : Font) (font_size char_adjust : Q) :
  compute_line_width text_line chinese_font latin_font font_size char_adjust
  == Qsum (map (run_width chinese_font latin_font font_size char_adjust)
               (segment_text text_line))
  /\
  ((forall ch, text_length latin_font [ch] font_size == 5) ->
   (forall s, text_length chinese_font s font_size
              == 10 * inject_Z (Z.of_nat (length s))) ->
   compute_line_width hello_shijie chinese_font latin_font font_size (-0.5)
   == 42.5).
Proof.
  split.
  - apply compute_line_width_runs.
  - intros Hlatin Hwide.
    rewrite compute_line_width_runs. unfold spec_measure.
    change (segment_text hello_shijie)
      with [(txt "Hello", false); ([0x4E16; 0x754C]%N, true)].
    unfold run_width. simpl. rewrite !Hlatin, Hwide. simpl. reflexivity.
Qed.

Lemma compute_line_width_sum_of_runs_witness :
  compute_line_width hello_shijie (fixed_font 10) (fixed_font 5) 12 (-0.5)
  == 42.5.
Proof.
  apply (proj2 (compute_line_width_sum_of_runs [] (fixed_font 10)
                  (fixed_font 5) 12 0)).
  - intros ch. reflexivity.
  - intros s. simpl. ring.
Defined.

(** ** Splitting a line *)

Section Splitting.

Variables (chinese_font latin_font : Font).
Variables (font_size char_adjust allowed_width : Q).

Let width := ch_width chinese_font latin_font font_size char_adjust.
Let running := run_from chinese_font latin_font font_size char_adjust.
Let scan := split_loop chinese_font latin_font font_size char_adjust
              allowed_width.

(** While the loop has not stopped, [split_index] is the index [i] of the
    next character.  From there the loop commits [k - i] more characters:
    the running sum stays within the allowed width after each of them, and
    the next character, if there is one, would exceed it. *)
Lemma split_loop_scan rest : forall i cum_width,
  let k := scan rest i cum_width i in
  (i <= k <= i + length rest)%nat /\
  (forall j, (1 <= j <= k - i)%nat ->
     running cum_width (firstn j rest) <= allowed_width) /\
  ((k - i < length rest)%nat ->
   ~ running cum_width (firstn (S (k - i)) rest) <= allowed_width).
Proof.
  subst scan running width.
  induction rest as [|ch rest IH]; intros i cum; simpl.
  - repeat split; lia.
  - destruct (Qle_bool
                (cum + ch_width chinese_font latin_font font_size
                         char_adjust ch) allowed_width) eqn:Hle.
    + specialize (IH (S i)
                  (cum + ch_width chinese_font latin_font font_size
                           char_adjust ch)).
      set (k := split_loop chinese_font latin_font font_size char_adjust
                  allowed_width rest (S i)
                  (cum + ch_width chinese_font latin_font font_size
                           char_adjust ch) (S i)) in *.
      destruct IH as (Hk & Hin & Hout).
      split; [lia|]. split.
      * intros j Hj. destruct j as [|[|j]]; [lia| |].
        -- now apply Qle_bool_iff.
        -- apply (Hin (S j)). lia.
      * intros Hlt. replace (k - i)%nat with (S (k - S i)) by lia.
        apply Hout. lia.
    + split; [lia|]. split.
      * intros j Hj. lia.
      * intros _. rewrite Nat.sub_diag. simpl. unfold run_from. simpl.
        intros Hc. apply Qle_bool_iff in Hc. congruence.
Qed.

Lemma split_index_of_bounds line :
  line <> [] ->
  (1 <= split_index_of line allowed_width chinese_font latin_font font_size
          char_adjust <= length line)%nat.
Proof.
  intros Hne. unfold split_index_of.
  destruct (split_loop_scan line 0 0) as ((_ & Hk) & _).
  subst scan. simpl in Hk.
  destruct (Nat.eqb_spec
              (split_loop chinese_font latin_font font_size char_adjust
                 allowed_width line 0 0 0) 0) as [Hz|Hnz].
  - destruct line; [congruence|simpl; lia].
  - lia.
Qed.

(** The first character does not fit: the loop commits nothing. *)
Lemma split_loop_overflow ch0 rest :
  allowed_width < width ch0 ->
  scan (ch0 :: rest) 0%nat 0 0%nat = 0%nat.
Proof.
  subst scan width. intros Hlt. simpl.
  destruct (Qle_bool
              (0 + ch_width chinese_font latin_font font_size char_adjust ch0)
              allowed_width) eqn:Hle; [|reflexivity].
  apply Qle_bool_iff in Hle. lra.
Qed.

End Splitting.

(** A prefix picked by the scan is the longest one along which the
    running sum stays within the allowed width. *)
Lemma maximal_fitting_prefix_longest (chinese_font latin_font : Font)
    (font_size char_adjust allowed_width : Q) (line prefix : text) :
  maximal_fitting_prefix chinese_font latin_font font_size char_adjust
    allowed_width line prefix ->
  forall k', (k' <= length line)%nat ->
    stays_within chinese_font latin_font font_size char_adjust allowed_width
      line k' ->
    (k' <= length prefix)%nat.
Proof.
  intros (k & Hk & -> & _ & Hstop) k' Hk' Hstays.
  rewrite length_firstn, Nat.min_l by exact Hk.
  destruct (Nat.le_gt_cases k' k) as [Hle|Hgt]; [exact Hle|].
  exfalso. apply Hstop; [lia|]. apply Hstays. lia.
Qed.

(** C1, amended. For every non-empty line and every [allowed_width >= 0]:
    when the first character fits, the prefix returned by
    [split_text_line] is the longest prefix along which the running sum of
    the per-character widths (wide characters measured one by one with the
    wide font, narrow ones with the narrow font plus [char_adjust]) stays
    within [allowed_width], the scan stopping at the first character that
    would exceed it; when the first character alone exceeds
    [allowed_width], the prefix is that character. *)
Theorem split_prefix_maximal_or_forced (ch0 : char) (rest : text)
    (allowed_width : Q) (chinese_font latin_font : Font)
    (font_size char_adjust : Q) :
  0 <= allowed_width ->
  let line := ch0 :: rest in
  let prefix := fst (split_text_line line allowed_width chinese_font
                       latin_font font_size char_adjust) in
  (ch_width chinese_font latin_font font_size char_adjust ch0
   <= allowed_width ->
   maximal_fitting_prefix chinese_font latin_font font_size char_adjust
     allowed_width line prefix) /\
  (allowed_width
   < ch_width chinese_font latin_font font_size char_adjust ch0 ->
   prefix = [ch0]).
Proof.
  intros _ line prefix. subst prefix. unfold split_text_line, split_index_of.
  split.
  - intros Hfit.
    pose proof (split_loop_scan chinese_font latin_font font_size
                  char_adjust allowed_width line 0 0) as Hscan.
    cbv zeta in Hscan. rewrite !Nat.sub_0_r in Hscan.
    set (k := split_loop chinese_font latin_font font_size char_adjust
                allowed_width line 0 0 0) in *.
    destruct Hscan as (Hk & Hin & Hout).
    destruct (Nat.eqb_spec k 0) as [Hz|Hnz].
    + exfalso. rewrite Hz in Hout. apply Hout; [simpl; lia|].
      unfold run_from. simpl. lra.
    + exists k. repeat split.
      * lia.
      * exact Hin.
      * exact Hout.
  - intros Hover. subst line.
    rewrite (split_loop_overflow chinese_font latin_font font_size
               char_adjust allowed_width ch0 rest Hover).
    reflexivity.
Qed.

Lemma split_prefix_maximal_or_forced_witness :
  maximal_fitting_prefix (fixed_font 10) (fixed_font 3) 12 (-0.5) 10
    (txt "ABCDE") (txt "ABCD").
Proof.
  apply (split_prefix_maximal_or_forced 65%N (txt "BCDE") 10 (fixed_font 10)
           (fixed_font 3) 12 (-0.5)).
  - vm_compute. discriminate.
  - vm_compute. discriminate.
Defined.

(** C1 as stated fails: the first character of the line [A] is wider than
    the allowed width, and the prefix returned is not a prefix that stays
    within it. *)
Lemma split_prefix_exceeds_allowed_width :
  txt "A" <> [] /\ 0 <= 1 /\
  ~ maximal_fitting_prefix (fixed_font 10) (fixed_font 5) 12 (-0.5) 1
      (txt "A")
      (fst (split_text_line (txt "A") 1 (fixed_font 10) (fixed_font 5) 12
              (-0.5))).
Proof.
  split; [discriminate|]. split; [vm_compute; discriminate|].
  intros (k & Hk & Hpre & Hin & _).
  destruct k as [|k]; [discriminate Hpre|].
  specialize (Hin 1%nat ltac:(lia)).
  vm_compute in Hin. apply Hin. reflexivity.
Qed.

(** C4. For every non-empty line and every [allowed_width >= 0], the
    prefix returned by [split_text_line] is not empty, prefix and suffix
    together have the length of the line (they make up the line), the
    split index is not zero, and when the first character alone is wider
    than [allowed_width] the prefix is exactly that character. *)
Theorem split_text_line_prefix_nonempty (line : text) (allowed_width : Q)
    (chinese_font latin_font : Font) (font_size char_adjust : Q) :
  line <> [] ->
  0 <= allowed_width ->
  let (prefix, suffix) :=
    split_text_line line allowed_width chinese_font latin_font font_size
      char_adjust in
  prefix <> [] /\
  (length prefix + length suffix = length line)%nat /\
  prefix ++ suffix = line /\
  split_index_of line allowed_width chinese_font latin_font font_size
    char_adjust <> 0%nat /\
  (forall ch0 rest, line = ch0 :: rest ->
     allowed_width
     < ch_width chinese_font latin_font font_size char_adjust ch0 ->
     prefix = [ch0]).
Proof.
  intros Hne _. unfold split_text_line.
  pose proof (split_index_of_bounds chinese_font latin_font font_size
                char_adjust allowed_width line Hne) as Hk.
  set (k := split_index_of line allowed_width chinese_font latin_font
              font_size char_adjust) in *.
  repeat split.
  - destruct line; [congruence|]. destruct k; [lia|]. discriminate.
  - rewrite <- (firstn_skipn k line) at 3. now rewrite length_app.
  - apply firstn_skipn.
  - lia.
  - intros ch0 rest -> Hover. subst k. unfold split_index_of.
    rewrite (split_loop_overflow chinese_font latin_font font_size
               char_adjust allowed_width ch0 rest Hover).
    reflexivity.
Qed.

Lemma split_text_line_prefix_nonempty_witness :
  txt "A" <> [] /\
  (length (txt "A") + length (txt "BCDE") = length (txt "ABCDE"))%nat /\
  txt "A" ++ txt "BCDE" = txt "ABCDE" /\
  split_index_of (txt "ABCDE") 1 (fixed_font 10) (fixed_font 5) 12 (-0.5)
    <> 0%nat /\
  (forall ch0 rest, txt "ABCDE" = ch0 :: rest ->
     1 < ch_width (fixed_font 10) (fixed_font 5) 12 (-0.5) ch0 ->
     txt "A" = [ch0]).
Proof.
  apply (split_text_line_prefix_nonempty (txt "ABCDE") 1 (fixed_font 10)
           (fixed_font 5) 12 (-0.5)).
  - discriminate.
  - vm_compute. discriminate.
Defined.

(** C10. On the empty line [split_text_line] returns the pair of the empty
    prefix and the empty suffix, whatever the allowed width and the fonts:
    the split index is forced to 1 and both slices of the empty line are
    empty, so the prefix is empty there. *)
Theorem split_text_line_empty (allowed_width : Q)
    (chinese_font latin_font : Font) (font_size char_adjust : Q) :
  split_index_of [] allowed_width chinese_font latin_font font_size
    char_adjust = 1%nat /\
  split_text_line [] allowed_width chinese_font latin_font font_size
    char_adjust = ([], []).
Proof. split; reflexivity. Qed.

(** ** Width of a prefix *)

Lemma Forall_firstn_class (b : bool) (k : nat) (s : text) :
  Forall (fun ch => is_chinese ch = b) s ->
  Forall (fun ch => is_chinese ch = b) (firstn k s).
Proof.
  intros H. rewrite <- (firstn_skipn k s) in H.
  now apply Forall_app in H.
Qed.

(** A non-empty line starts with a run of the class of its first
    character, followed by nothing or by a character of the other class. *)
Lemma first_run_exists (l : text) : forall ch0,
  exists run rest : text,
    ch0 :: l = run ++ rest /\ run <> [] /\
    Forall (fun ch => is_chinese ch = is_chinese ch0) run /\
    match rest with [] => True | ch :: _ => is_chinese ch <> is_chinese ch0 end.
Proof.
  induction l as [|ch l IH]; intros ch0.
  - exists [ch0], []. repeat split; [discriminate|now repeat constructor].
  - destruct (Bool.bool_dec (is_chinese ch) (is_chinese ch0)) as [Heq|Hneq].
    + destruct (IH ch) as (run & rest & Hl & _ & Hrun & Hrest).
      exists (ch0 :: run), rest. rewrite Heq in *. repeat split.
      * simpl. now rewrite Hl.
      * discriminate.
      * now constructor.
      * exact Hrest.
    + exists [ch0], (ch :: l).
      repeat split; [discriminate|now repeat constructor|exact Hneq].
Qed.

Section PrefixWidth.

Variables (chinese_font latin_font : Font) (font_size char_adjust : Q).

Hypothesis wide_nonneg :
  forall s, 0 <= text_length chinese_font s font_size.
Hypothesis wide_monotone :
  forall s t, text_length chinese_font s font_size
              <= text_length chinese_font (s ++ t) font_size.
Hypothesis narrow_nonneg :
  forall ch, is_chinese ch = false ->
             0 <= text_length latin_font [ch] font_size + char_adjust.

Local Abbreviation letter :=
  (fun ch => text_length latin_font [ch] font_size + char_adjust).
Local Abbreviation rw :=
  (run_width chinese_font latin_font font_size char_adjust).
Local Abbreviation measure line :=
  (spec_measure line chinese_font latin_font font_size char_adjust).

Lemma letters_nonneg (seg : text) :
  Forall (fun ch => is_chinese ch = false) seg -> 0 <= Qsum (map letter seg).
Proof.
  induction 1 as [|ch seg Hch _ IH]; simpl; [lra|].
  pose proof (narrow_nonneg ch Hch). lra.
Qed.

Lemma letters_prefix (seg : text) : forall k,
  Forall (fun ch => is_chinese ch = false) seg ->
  Qsum (map letter (firstn k seg)) <= Qsum (map letter seg).
Proof.
  induction seg as [|ch seg IH]; intros k Hseg.
  - rewrite firstn_nil. lra.
  - inversion Hseg as [|? ? Hch Hseg']; subst.
    destruct k as [|k]; simpl.
    + pose proof (letters_nonneg seg Hseg').
      pose proof (narrow_nonneg ch Hch). lra.
    + specialize (IH k Hseg'). lra.
Qed.

Lemma run_width_nonneg (seg : text) b :
  Forall (fun ch => is_chinese ch = b) seg -> 0 <= rw (seg, b).
Proof.
  unfold run_width. destruct b; simpl; intros H.
  - apply wide_nonneg.
  - now apply letters_nonneg.
Qed.

Lemma run_width_prefix (seg : text) b k :
  Forall (fun ch => is_chinese ch = b) seg ->
  rw (firstn k seg, b) <= rw (seg, b).
Proof.
  unfold run_width. destruct b; simpl; intros H.
  - rewrite <- (firstn_skipn k seg) at 2. apply wide_monotone.
  - now apply letters_prefix.
Qed.

Lemma runs_nonneg (segments : list segment) :
  Forall (fun s : segment => Forall (fun ch => is_chinese ch = snd s) (fst s))
         segments ->
  0 <= Qsum (map rw segments).
Proof.
  induction 1 as [|[seg b] segs Hseg _ IH]; simpl; [lra|].
  pose proof (run_width_nonneg seg b Hseg). lra.
Qed.

Lemma measure_nonneg line : 0 <= measure line.
Proof.
  apply runs_nonneg. apply segment_text_same_class.
Qed.

Lemma measure_first_run (run rest : text) b :
  run <> [] ->
  Forall (fun ch => is_chinese ch = b) run ->
  match rest with [] => True | ch :: _ => is_chinese ch <> b end ->
  measure (run ++ rest) == rw (run, b) + measure rest.
Proof.
  intros Hne Hrun Hrest. unfold spec_measure.
  rewrite (segment_text_first_run run rest b Hne Hrun Hrest).
  reflexivity.
Qed.

(** No prefix of a line is wider than the line. *)
Lemma measure_prefix n : forall (line : text) k,
  (length line <= n)%nat -> measure (firstn k line) <= measure line.
Proof.
  induction n as [|n IH]; intros line k Hlen.
  - destruct line; [|simpl in Hlen; lia]. rewrite firstn_nil. lra.
  - destruct line as [|ch0 l]; [rewrite firstn_nil; lra|].
    destruct (first_run_exists l ch0) as (run & rest & Hl & Hne & Hrun & Hrest).
    rewrite Hl.
    assert (Hrl : (length rest <= n)%nat).
    { apply (f_equal (@length char)) in Hl. rewrite length_app in Hl.
      simpl in Hl, Hlen. destruct run; [congruence|simpl in Hl; lia]. }
    rewrite (measure_first_run run rest _ Hne Hrun Hrest).
    destruct k as [|k].
    + simpl. pose proof (run_width_nonneg run _ Hrun).
      pose proof (measure_nonneg rest). change (measure []) with 0.
        unfold text in *. lra.
    + rewrite firstn_app.
      destruct (Nat.le_gt_cases (S k) (length run)) as [Hin|Hout].
      * replace (S k - length run)%nat with 0%nat by lia. simpl firstn at 2.
        assert (Hp : firstn (S k) run <> []).
        { destruct run; [congruence|discriminate]. }
        rewrite (measure_first_run (firstn (S k) run) [] _ Hp
                   (Forall_firstn_class _ _ _ Hrun) I).
        pose proof (run_width_prefix run _ (S k) Hrun).
        pose proof (measure_nonneg rest). change (measure []) with 0.
        unfold text in *. lra.
      * rewrite firstn_all2 by lia.
        assert (Hhead : match firstn (S k - length run) rest with
                        | [] => True
                        | ch :: _ => is_chinese ch <> is_chinese ch0
                        end).
        { destruct (S k - length run)%nat; simpl; [exact I|].
          destruct rest; [exact I|exact Hrest]. }
        rewrite (measure_first_run run _ _ Hne Hrun Hhead).
        specialize (IH rest (S k - length run)%nat Hrl).
        unfold text in *. lra.
Qed.

End PrefixWidth.

(** C8, amended. When the wide font measures no string as negative and
    no string as shorter than one of its prefixes, and every narrow
    character has a non-negative width once [char_adjust] is added, then
    for every line whose measured width exceeds [allowed_width] the prefix
    returned by [split_text_line] measures at most what the line
    measures. *)
Theorem split_prefix_width_le_line (line : text) (allowed_width : Q)
    (chinese_font latin_font : Font) (font_size char_adjust : Q) :
  (forall s, 0 <= text_length chinese_font s font_size) ->
  (forall s t, text_length chinese_font s font_size
               <= text_length chinese_font (s ++ t) font_size) ->
  (forall ch, is_chinese ch = false ->
              0 <= text_length latin_font [ch] font_size + char_adjust) ->
  allowed_width
  < compute_line_width line chinese_font latin_font font_size char_adjust ->
  compute_line_width
    (fst (split_text_line line allowed_width chinese_font latin_font
            font_size char_adjust))
    chinese_font latin_font font_size char_adjust
  <= compute_line_width line chinese_font latin_font font_size char_adjust.
Proof.
  intros Hnonneg Hmono Hnarrow _. unfold split_text_line. simpl.
  rewrite !compute_line_width_runs.
  apply (measure_prefix chinese_font latin_font font_size char_adjust
           Hnonneg Hmono Hnarrow (length line)). lia.
Qed.

Lemma fixed_font_nonneg (advance font_size : Q) (s : text) :
  0 <= advance -> 0 <= text_length (fixed_font advance) s font_size.
Proof.
  intros Ha. simpl. apply Qmult_le_0_compat; [|exact Ha].
  change 0 with (inject_Z 0). rewrite <- Zle_Qle. lia.
Qed.

Lemma fixed_font_monotone (advance font_size : Q) (s t : text) :
  0 <= advance ->
  text_length (fixed_font advance) s font_size
  <= text_length (fixed_font advance) (s ++ t) font_size.
Proof.
  intros Ha. simpl. apply Qmult_le_compat_r; [|exact Ha].
  rewrite <- Zle_Qle, length_app. lia.
Qed.

Lemma split_prefix_width_le_line_witness :
  compute_line_width
    (fst (split_text_line (txt "ABCDE") 10 (fixed_font 10) (fixed_font 3) 12
            (-0.5)))
    (fixed_font 10) (fixed_font 3) 12 (-0.5)
  <= compute_line_width (txt "ABCDE") (fixed_font 10) (fixed_font 3) 12
       (-0.5).
Proof.
  apply (split_prefix_width_le_line (txt "ABCDE") 10 (fixed_font 10)
           (fixed_font 3) 12 (-0.5)).
  - intros s. apply fixed_font_nonneg. vm_compute. discriminate.
  - intros s t. apply fixed_font_monotone. vm_compute. discriminate.
  - intros ch _. vm_compute. discriminate.
  - vm_compute. reflexivity.
Defined.

(** C8 as stated fails: the line [ab] measures 4.25, more than the allowed
    width 4; its first character does not fit, so the prefix is [a], which
    measures 4.5, more than the line. *)
Lemma split_prefix_wider_than_line :
  let line := txt "ab" in
  let prefix := fst (split_text_line line 4 (fixed_font 10) thin_b_font 12
                       (-0.5)) in
  4 < compute_line_width line (fixed_font 10) thin_b_font 12 (-0.5) /\
  prefix = txt "a" /\
  ~ compute_line_width prefix (fixed_font 10) thin_b_font 12 (-0.5)
    <= compute_line_width line (fixed_font 10) thin_b_font 12 (-0.5).
Proof.
  split; [vm_compute; reflexivity|].
  split; [reflexivity|].
  vm_compute. intros H. apply H. reflexivity.
Qed.

(** ** Rows and pages *)

Lemma Qgt_bool_true (x y : Q) : Qgt_bool x y = true <-> y < x.
Proof.
  unfold Qgt_bool. rewrite (Qgt_alt x y).
  destruct (x ?= y); split; congruence.
Qed.

Lemma Qgt_bool_false (x y : Q) : Qgt_bool x y = false <-> x <= y.
Proof.
  unfold Qgt_bool. rewrite (Qle_alt x y).
  destruct (x ?= y); split; congruence.
Qed.

Lemma announced_app (ms ms' : list Msg) :
  announced (ms ++ ms') = announced ms ++ announced ms'.
Proof.
  induction ms as [|m ms IH]; simpl; [reflexivity|].
  destruct m; simpl; now rewrite ?IH.
Qed.

Lemma start_x_valid (text_align : text) (insert_x page_width row_width : Q) :
  valid_align text_align ->
  exists x, start_x text_align insert_x page_width row_width = Some x.
Proof.
  intros [<-|[<-|[<-|[]]]]; unfold start_x; simpl; eauto.
Qed.

Section Rows.

Variables (chinese_font_obj latin_font_obj : Font).
Variables (font_size char_adjust : Q) (color_black : list Q).
Variable page_index : nat.

Local Abbreviation here y :=
  (fun c => ins_page c = page_index /\ ins_y c = y).

Lemma insert_letters_appends (verbose : bool) (y : Q) (seg : text) :
  forall x w,
  exists r,
    appends w
      (snd (insert_letters latin_font_obj font_size char_adjust color_black
              page_index verbose y seg (x, w))) r /\
    Forall (here y) r /\ concat (map ins_text r) = seg.
Proof.
  unfold insert_letters, appends.
  induction seg as [|letter seg IH]; intros x w; simpl.
  - exists []. now rewrite app_nil_r.
  - match goal with
    | |- context [fold_left _ seg (?x1, ?w1)] =>
        destruct (IH x1 w1) as (r & (Hc & Hl) & Hr & Ht)
    end.
    exists ({| ins_page := page_index; ins_x := x; ins_y := y;
               ins_text := [letter]; ins_fontname := latin_font_name;
               ins_fontsize := font_size; ins_color := color_black |} :: r).
    rewrite Hc, Hl. destruct verbose; simpl.
    + rewrite announced_app, app_nil_r, <- app_assoc. simpl.
      repeat split; [constructor; [now split|exact Hr]|now rewrite Ht].
    + rewrite <- app_assoc. simpl.
      repeat split; [constructor; [now split|exact Hr]|now rewrite Ht].
Qed.

Lemma insert_segments_appends (verbose : bool) (y : Q)
    (segments : list segment) :
  forall x w,
  exists r,
    appends w
      (snd (fold_left
              (fun (st : Q * World) (s : segment) =>
                 let (seg, seg_is_ch) := s in
                 if seg_is_ch
                 then
                   let (current_x, w) := st in
                   let w := insert_text page_index current_x y seg
                              chinese_font_name font_size color_black w in
                   let seg_width :=
                     text_length chinese_font_obj seg font_size in
                   let w := if verbose
                            then log_func (MsgChineseSeg seg seg_width) w
                            else w in
                   (current_x + seg_width, w)
                 else insert_letters latin_font_obj font_size char_adjust
                        color_black page_index verbose y seg st)
              segments (x, w))) r /\
    Forall (here y) r /\
    concat (map ins_text r) = concat (map fst segments).
Proof.
  unfold appends.
  induction segments as [|[seg [|]] segments IH]; intros x w; simpl.
  - exists []. now rewrite app_nil_r.
  - match goal with
    | |- context [fold_left _ segments (?x1, ?w1)] =>
        destruct (IH x1 w1) as (r & (Hc & Hl) & Hr & Ht)
    end.
    exists ({| ins_page := page_index; ins_x := x; ins_y := y;
               ins_text := seg; ins_fontname := chinese_font_name;
               ins_fontsize := font_size; ins_color := color_black |} :: r).
    rewrite Hc, Hl. destruct verbose; simpl.
    + rewrite announced_app, app_nil_r, <- app_assoc. simpl.
      repeat split; [constructor; [now split|exact Hr]|now rewrite Ht].
    + rewrite <- app_assoc. simpl.
      repeat split; [constructor; [now split|exact Hr]|now rewrite Ht].
  - destruct (insert_letters_appends verbose y seg x w)
      as (r1 & (Hc1 & Hl1) & Hr1 & Ht1).
    destruct (insert_letters latin_font_obj font_size char_adjust color_black
                page_index verbose y seg (x, w)) as [x1 w1].
    destruct (IH x1 w1) as (r2 & (Hc2 & Hl2) & Hr2 & Ht2).
    simpl in *. exists (r1 ++ r2).
    rewrite Hc2, Hl2, Hc1, Hl1, app_assoc, map_app, concat_app, Ht1, Ht2.
    repeat split. apply Forall_app. now split.
Qed.

(** Inserting a row calls [insert_text] at the height of the row only,
    and the texts inserted make up the row. *)
Lemma insert_row_appends (verbose : bool) (y : Q) (row : text) (x : Q)
    (w : World) :
  exists r,
    appends w
      (snd (insert_row chinese_font_obj latin_font_obj font_size char_adjust
              color_black page_index verbose y row (x, w))) r /\
    is_row page_index y row r.
Proof.
  destruct (insert_segments_appends verbose y (segment_text row) x w)
    as (r & Ha & Hr & Ht).
  exists r. split; [exact Ha|]. split; [exact Hr|].
  rewrite Ht. apply segment_text_concat.
Qed.

End Rows.

Section Lines.

Variables (chinese_font_obj latin_font_obj : Font).
Variables (font_size char_adjust : Q) (color_black : list Q).
Variables (insert_x insert_y : Q) (text_align : text).

Hypothesis align_ok : valid_align text_align.

(** What the loop body does with one line on one page. *)
Lemma insert_line_appends (page_index : nat) (text_line : text)
    (page : Page) (w : World) :
  let allowed_width := rect_width page - 2 * insert_x in
  let adjusted_y := rect_height page - insert_y in
  let line_width :=
    compute_line_width text_line chinese_font_obj latin_font_obj font_size
      char_adjust in
  let parts :=
    split_text_line text_line allowed_width chinese_font_obj latin_font_obj
      font_size char_adjust in
  exists w' r,
    insert_line chinese_font_obj latin_font_obj font_size char_adjust
      color_black page_index insert_x insert_y text_align text_line page w
    = Some w' /\
    calls w' = calls w ++ r /\
    announced (logged w')
    = announced (logged w) ++ [((page_index + 1)%nat, text_line)] /\
    (line_width <= allowed_width -> is_row page_index adjusted_y text_line r)
    /\
    (~ line_width <= allowed_width ->
     exists r1 r2,
       r = r1 ++ r2 /\
       is_row page_index (adjusted_y - font_size - 2) (fst parts) r1 /\
       is_row page_index adjusted_y (snd parts) r2).
Proof.
  intros allowed_width adjusted_y line_width parts.
  unfold insert_line.
  fold allowed_width adjusted_y line_width. fold parts.
  destruct (Qgt_bool line_width allowed_width) eqn:Hgt.
  - apply Qgt_bool_true in Hgt.
    destruct parts as [first_part second_part] eqn:Hparts.
    destruct (start_x_valid text_align insert_x (rect_width page)
                (compute_line_width first_part chinese_font_obj
                   latin_font_obj font_size char_adjust) align_ok)
      as (x1 & ->).
    destruct (start_x_valid text_align insert_x (rect_width page)
                (compute_line_width second_part chinese_font_obj
                   latin_font_obj font_size char_adjust) align_ok)
      as (x2 & ->).
    match goal with
    | |- context [insert_row _ _ _ _ _ _ _ _ first_part (x1, ?w1)] =>
        destruct (insert_row_appends chinese_font_obj latin_font_obj
                    font_size char_adjust color_black page_index false
                    (adjusted_y - font_size - 2) first_part x1 w1)
          as (r1 & (Hc1 & Hl1) & Hrow1)
    end.
    match goal with
    | |- context [insert_row _ _ _ _ _ _ _ _ second_part (x2, ?w2)] =>
        destruct (insert_row_appends chinese_font_obj latin_font_obj
                    font_size char_adjust color_black page_index false
                    adjusted_y second_part x2 w2)
          as (r2 & (Hc2 & Hl2) & Hrow2)
    end.
    eexists. exists (r1 ++ r2). split; [reflexivity|].
    rewrite Hc2, Hl2, Hc1, Hl1. simpl.
    rewrite !announced_app, app_assoc. simpl. rewrite !app_nil_r.
    split; [reflexivity|]. split; [reflexivity|]. split.
    + intros Hle. lra.
    + intros _. exists r1, r2. repeat split; apply Hrow1 || apply Hrow2.
  - apply Qgt_bool_false in Hgt.
    destruct (start_x_valid text_align insert_x (rect_width page) line_width
                align_ok) as (x & ->).
    match goal with
    | |- context [insert_row _ _ _ _ _ _ _ _ text_line (x, ?w1)] =>
        destruct (insert_row_appends chinese_font_obj latin_font_obj
                    font_size char_adjust color_black page_index true
                    adjusted_y text_line x w1)
          as (r & (Hc & Hl) & Hrow)
    end.
    eexists. exists r. split; [reflexivity|].
    rewrite Hc, Hl. simpl. rewrite !announced_app. simpl.
    rewrite !app_nil_r.
    split; [reflexivity|]. split; [reflexivity|]. split.
    + intros _. exact Hrow.
    + intros Hnle. contradiction.
Qed.

End Lines.

(** ** Lines and pages *)

Lemma text_on_page_app (i : nat) (cs cs' : list Insert) :
  text_on_page i (cs ++ cs') = text_on_page i cs ++ text_on_page i cs'.
Proof.
  unfold text_on_page. now rewrite filter_app, map_app, concat_app.
Qed.

Lemma text_on_page_same (a i : nat) (r : list Insert) :
  Forall (fun c => ins_page c = a) r ->
  text_on_page i r = if Nat.eqb a i then concat (map ins_text r) else [].
Proof.
  unfold text_on_page. induction 1 as [|c r Hc _ IH]; simpl.
  - now destruct (Nat.eqb a i).
  - rewrite Hc. destruct (Nat.eqb a i); simpl; now rewrite IH.
Qed.

Lemma is_row_page (a : nat) (y : Q) (row : text) (r : list Insert) :
  is_row a y row r -> Forall (fun c => ins_page c = a) r.
Proof.
  intros [H _]. eapply Forall_impl; [|exact H]. now intros c [Hc _].
Qed.

Section Pages.

Variables (chinese_font_obj latin_font_obj : Font).
Variables (font_size char_adjust : Q) (color_black : list Q).
Variables (insert_x insert_y : Q) (text_align : text).
Variables (lines : list text) (doc : list Page).

Hypothesis align_ok : valid_align text_align.

(** The calls made for one line go to its page and spell the line. *)
Lemma insert_line_on_page (i : nat) (text_line : text) (page : Page)
    (w : World) :
  exists w' r,
    insert_line chinese_font_obj latin_font_obj font_size char_adjust
      color_black i insert_x insert_y text_align text_line page w
    = Some w' /\
    calls w' = calls w ++ r /\
    announced (logged w')
    = announced (logged w) ++ [((i + 1)%nat, text_line)] /\
    Forall (fun c => ins_page c = i) r /\
    concat (map ins_text r) = text_line.
Proof.
  destruct (insert_line_appends chinese_font_obj latin_font_obj font_size
              char_adjust color_black insert_x insert_y text_align align_ok
              i text_line page w)
    as (w' & r & Hrun & Hcalls & Hlog & Hone & Htwo).
  exists w', r. repeat (split; [assumption|]).
  set (allowed_width := rect_width page - 2 * insert_x) in *.
  destruct (Qgt_bool
              (compute_line_width text_line chinese_font_obj latin_font_obj
                 font_size char_adjust) allowed_width) eqn:Hgt.
  - apply Qgt_bool_true in Hgt.
    destruct Htwo as (r1 & r2 & -> & Hr1 & Hr2); [lra|].
    split.
    + apply Forall_app. split; eapply is_row_page; eassumption.
    + rewrite map_app, concat_app.
      destruct Hr1 as [_ ->], Hr2 as [_ ->].
      unfold split_text_line. simpl. apply firstn_skipn.
  - apply Qgt_bool_false in Hgt. specialize (Hone Hgt).
    split; [eapply is_row_page; eassumption|apply Hone].
Qed.

(** The turns [a], ..., [a + n - 1] of the loop. *)
Lemma for_range_pages (n : nat) : forall a w toc,
  (a + n <= length lines)%nat ->
  (a + n <= length doc)%nat ->
  exists w',
    for_range
      (page_step chinese_font_obj latin_font_obj font_size char_adjust
         color_black insert_x insert_y text_align lines doc)
      (seq a n) (w, toc)
    = Some (w', toc ++ map (fun i => (1, nth i lines [], i + 1)%nat)
                           (seq a n)) /\
    announced (logged w')
    = announced (logged w)
      ++ map (fun i => ((i + 1)%nat, nth i lines [])) (seq a n) /\
    (forall i,
       text_on_page i (calls w')
       = text_on_page i (calls w)
         ++ (if Nat.leb a i && Nat.ltb i (a + n) then nth i lines [] else [])).
Proof.
  induction n as [|n IH]; intros a w toc Hlines Hdoc; simpl.
  - exists w. rewrite !app_nil_r. repeat split.
    intros i. replace (Nat.leb a i && Nat.ltb i (a + 0)) with false.
    + now rewrite app_nil_r.
    + symmetry. apply andb_false_iff.
      destruct (Nat.leb_spec a i); [right|now left].
      apply Nat.ltb_ge. lia.
  - rewrite (nth_error_nth' lines [] (n := a)) by lia.
    destruct (nth_error doc a) as [page|] eqn:Hpage;
      [|apply nth_error_None in Hpage; lia].
    destruct (insert_line_on_page a (nth a lines []) page w)
      as (w1 & r & -> & Hcalls & Hlog & Hpages & Htext).
    destruct (IH (S a) w1 (toc ++ [(1, nth a lines [], a + 1)%nat]))
      as (w' & Hrun & Hlog' & Htexts); [lia|lia|].
    exists w'. rewrite Hrun, Hlog', Hlog, <- !app_assoc. simpl.
    repeat split.
    intros i. rewrite Htexts, Hcalls, text_on_page_app.
    rewrite (text_on_page_same a i r Hpages), Htext, <- app_assoc.
    f_equal.
    destruct (Nat.eqb_spec a i) as [<-|Hne].
    + replace (Nat.leb (S a) a && Nat.ltb a (S a + n)) with false
        by (symmetry; apply andb_false_iff; left; apply Nat.leb_gt; lia).
      replace (Nat.leb a a && Nat.ltb a (a + S n)) with true
        by (symmetry; apply andb_true_iff; split;
            [apply Nat.leb_le|apply Nat.ltb_lt]; lia).
      now rewrite app_nil_r.
    + simpl.
      replace (Nat.leb a i) with (Nat.leb (S a) i)
        by (apply eq_true_iff_eq; rewrite !Nat.leb_le; lia).
      now replace (a + S n)%nat with (S a + n)%nat by lia.
Qed.

End Pages.

Lemma text_eqb_eq (s : text) : forall t, text_eqb s t = true -> s = t.
Proof.
  induction s as [|a s IH]; intros [|b t]; simpl; try discriminate.
  - reflexivity.
  - intros H. apply andb_true_iff in H. destruct H as [Hab Hst].
    apply N.eqb_eq in Hab. f_equal; [exact Hab|now apply IH].
Qed.

(** The alignment the loop works with is one of the three names. *)
Lemma checked_align_valid (text_align : text) (w : World) :
  let (w', text_align') :=
    if negb (existsb (text_eqb text_align)
               [txt "left"; txt "center"; txt "right"])
    then (log_func MsgBadAlign w, txt "left")
    else (w, text_align) in
  valid_align text_align' /\ calls w' = calls w /\
  announced (logged w') = announced (logged w).
Proof.
  destruct (existsb (text_eqb text_align)
              [txt "left"; txt "center"; txt "right"]) eqn:Hin; simpl.
  - repeat split. apply existsb_exists in Hin.
    destruct Hin as (a & Ha & Heq). apply text_eqb_eq in Heq. now subst.
  - repeat split.
    + unfold valid_align. simpl. auto.
    + now rewrite announced_app, app_nil_r.
Qed.

Lemma log_bookmarks_same (toc : list Bookmark) : forall w,
  let w' :=
    fold_left
      (fun w (b : Bookmark) =>
         let '(level, title, page) := b in
         log_func (MsgBookmark level title page) w)
      toc w in
  calls w' = calls w /\ announced (logged w') = announced (logged w).
Proof.
  induction toc as [|[[level title] page] toc IH]; intros w; simpl.
  - split; reflexivity.
  - destruct (IH (log_func (MsgBookmark level title page) w)) as [Hc Hl].
    rewrite Hc, Hl. simpl. now rewrite announced_app, app_nil_r.
Qed.

(** The run with an engine that accepts every call.  When the inputs
    parse, the file is read, the document opens and the fonts load, it
    completes, and with [count = min(len(lines), page_count)]: the table
    of contents has exactly [count] entries, the entry of index [i] being
    [[1, lines[i], i + 1]]; the lines announced are [lines[i]] for page
    number [i + 1], in order, for [i < count]; page [i < count] receives
    the text [lines[i]], and the pages beyond receive no text. *)
Lemma accepting_run_assignments (E : Env)
    (input_pdf overlay_txt output_pdf : text)
    (insert_x insert_y font_size color_str text_align : text)
    (x y size : Q) (raw : list text) (doc : list Page)
    (chinese_font_obj latin_font_obj : Font) :
  py_float E insert_x = Some x ->
  py_float E insert_y = Some y ->
  py_float E font_size = Some size ->
  path_exists E overlay_txt = true ->
  file_lines E overlay_txt = Some raw ->
  fitz_open E input_pdf = Some doc ->
  fitz_Font E chinese_font_name = Some chinese_font_obj ->
  fitz_Font E latin_font_name = Some latin_font_obj ->
  let lines := read_lines E raw in
  let count := Nat.min (length lines) (length doc) in
  let toc := map (fun i => (1, nth i lines [], i + 1)%nat) (seq 0 count) in
  exists w saved,
    perform_insertion E input_pdf overlay_txt output_pdf insert_x insert_y
      font_size color_str text_align
    = Completed w toc saved /\
    length toc = count /\
    announced (logged w)
    = map (fun i => ((i + 1)%nat, nth i lines [])) (seq 0 count) /\
    (forall i, text_on_page i (calls w)
               = if Nat.ltb i count then nth i lines [] else []).
Proof.
  intros Hx Hy Hsize Hpath Hfile Hopen Hwide Hnarrow lines count toc.
  unfold perform_insertion.
  rewrite Hx, Hy, Hsize.
  pose proof (checked_align_valid (str_strip E (str_lower E text_align))
                {| calls := []; logged := [] |}) as Halign.
  destruct (if negb (existsb (text_eqb (str_strip E (str_lower E text_align)))
                       [txt "left"; txt "center"; txt "right"])
            then (log_func MsgBadAlign {| calls := []; logged := [] |},
                  txt "left")
            else ({| calls := []; logged := [] |},
                  str_strip E (str_lower E text_align)))
    as [w0 align].
  destruct Halign as (Halign & Hc0 & Hl0). simpl in Hc0, Hl0.
  destruct (parse_color E color_str) as [color_black warned].
  set (w1 := if warned then log_func MsgBadColor w0 else w0).
  assert (Hw1 : calls w1 = [] /\ announced (logged w1) = []).
  { subst w1. destruct warned; simpl; [|now split].
    now rewrite announced_app, Hc0, Hl0. }
  destruct Hw1 as [Hc1 Hl1].
  rewrite Hpath, Hfile, Hopen, Hwide, Hnarrow. simpl negb. cbv iota.
  fold lines. fold count. unfold insert_pages.
  destruct (for_range_pages chinese_font_obj latin_font_obj size (-0.5)
              color_black x y align lines doc Halign count 0 w1 [])
    as (w2 & -> & Hl2 & Ht2); [simpl; lia|simpl; lia|].
  simpl app. fold toc.
  destruct (log_bookmarks_same toc w2) as [Hc3 Hl3].
  match type of Hc3 with calls ?t = _ => set (w3 := t) in * end.
  assert (Hfinal : forall m,
             announced (logged (log_func m w3))
             = announced (logged w2) ++ announced [m]).
  { intros m. simpl. now rewrite announced_app, Hl3. }
  assert (Htext : forall i,
             text_on_page i (calls w3)
             = if Nat.ltb i count then nth i lines [] else []).
  { intros i. rewrite Hc3, Ht2, Hc1. reflexivity. }
  destruct (doc_save E output_pdf); eexists; eexists;
    (split; [reflexivity|]);
    (split; [subst toc; now rewrite length_map, length_seq|]);
    (split; [rewrite Hfinal, Hl2, Hl1; simpl; now rewrite app_nil_r
            |exact Htext]).
Qed.

(** ** Configuration *)

(** C6, amended. When the X coordinate, the Y coordinate or the font size
    is not numeric, [perform_insertion] logs the error and returns at
    once: no default is substituted, nothing is inserted and nothing else
    is logged. *)
Theorem non_numeric_input_returns (E : Env)
    (input_pdf overlay_txt output_pdf : text)
    (insert_x insert_y font_size color_str text_align : text) :
  py_float E insert_x = None \/ py_float E insert_y = None \/
  py_float E font_size = None ->
  perform_insertion E input_pdf overlay_txt output_pdf insert_x insert_y
    font_size color_str text_align
  = Returned {| calls := []; logged := [MsgNotNumeric] |}.
Proof.
  intros H. unfold perform_insertion.
  destruct (py_float E insert_x) as [x|];
    destruct (py_float E insert_y) as [y|];
    destruct (py_float E font_size) as [size|];
    try reflexivity.
  destruct H as [H|[H|H]]; discriminate H.
Qed.

Lemma non_numeric_input_returns_witness :
  perform_insertion (demo_env [txt "one"] [a4])
    (txt "in.pdf") (txt "lines.txt") (txt "out.pdf")
    (txt "abc") (txt "8") (txt "12") (txt "0,0,0") (txt "center")
  = Returned {| calls := []; logged := [MsgNotNumeric] |}.
Proof.
  apply (non_numeric_input_returns (demo_env [txt "one"] [a4])).
  left. reflexivity.
Defined.

(** C6 as stated fails: with the X coordinate [abc] the run ends at the
    error message, while the same run with the X coordinate [60] inserts
    the line and saves the document. *)
Lemma non_numeric_anchor_not_recovered :
  let run := fun insert_x =>
    perform_insertion (demo_env [txt "one"] [a4])
      (txt "in.pdf") (txt "lines.txt") (txt "out.pdf")
      insert_x (txt "8") (txt "12") (txt "0,0,0") (txt "center") in
  py_float (demo_env [txt "one"] [a4]) (txt "abc") = None /\
  run (txt "abc") = Returned {| calls := []; logged := [MsgNotNumeric] |} /\
  (exists w, run (txt "60") = Completed w [(1, txt "one", 1)]%nat true /\
             text_on_page 0 (calls w) = txt "one") /\
  run (txt "abc") <> run (txt "60").
Proof.
  split; [reflexivity|]. split; [reflexivity|]. split.
  - eexists. split; vm_compute; reflexivity.
  - vm_compute. discriminate.
Qed.

Lemma any_above_one_true (l : list Q) :
  existsb (fun c => Qgt_bool c 1) l = true <-> Exists (fun c => 1 < c) l.
Proof.
  rewrite existsb_exists, Exists_exists.
  split; intros (c & Hin & Hc); exists c; (split; [exact Hin|]);
    now apply Qgt_bool_true.
Qed.

Lemma any_above_one_false (l : list Q) :
  existsb (fun c => Qgt_bool c 1) l = false <-> Forall (fun c => c <= 1) l.
Proof.
  induction l as [|c l IH]; simpl.
  - split; [constructor|reflexivity].
  - rewrite orb_false_iff, IH, Qgt_bool_false. split.
    + intros [Hc Hl]. now constructor.
    + intros H. inversion H. now split.
Qed.

Lemma scaled_in_unit_interval (l : list Q) :
  Forall (fun c => 0 <= c /\ c <= 255) l ->
  Forall unit_interval (map (fun c => c / 255) l).
Proof.
  induction 1 as [|c l [Hlo Hhi] _ IH]; simpl; constructor; [|exact IH].
  unfold unit_interval, Qdiv. change (/ 255) with (1 # 255). lra.
Qed.

(** C7, amended. For a color string whose three components parse, no
    warning is logged; when some component exceeds 1 all components are
    divided by 255, and when all are at most 1 they are used unchanged; if
    moreover every component lies in [0, 255], every component of the
    resulting triple lies in [0, 1].  A color string with a component that
    does not parse, or without exactly three components, yields black
    (0, 0, 0) with the warning. *)
Theorem parse_color_normalizes (E : Env) (color_str : text) :
  let parsed :=
    map_raising (fun c => py_float E (str_strip E c))
      (split_comma color_str) in
  (forall color_values,
     parsed = Some color_values -> length color_values = 3%nat ->
     snd (parse_color E color_str) = false /\
     (Exists (fun c => 1 < c) color_values ->
      fst (parse_color E color_str) = map (fun c => c / 255) color_values) /\
     (Forall (fun c => c <= 1) color_values ->
      fst (parse_color E color_str) = color_values) /\
     (Forall (fun c => 0 <= c /\ c <= 255) color_values ->
      Forall unit_interval (fst (parse_color E color_str)))) /\
  ((parsed = None \/
    exists color_values,
      parsed = Some color_values /\ length color_values <> 3%nat) ->
   parse_color E color_str = ([0; 0; 0], true)).
Proof.
  intros parsed. unfold parse_color. fold parsed. split.
  - intros vals -> Hlen. rewrite Hlen. simpl negb. cbv iota.
    destruct (existsb (fun c => Qgt_bool c 1) vals) eqn:Hany; simpl.
    + split; [reflexivity|]. split; [reflexivity|]. split.
      * intros Hall. apply any_above_one_false in Hall. congruence.
      * apply scaled_in_unit_interval.
    + apply any_above_one_false in Hany.
      split; [reflexivity|]. split.
      * intros Hex. apply any_above_one_true in Hex.
        apply any_above_one_false in Hany. congruence.
      * split; [reflexivity|]. intros Hrange.
        rewrite Forall_forall in *. intros c Hc.
        split; [apply Hrange|apply Hany]; exact Hc.
  - intros [->|(vals & -> & Hlen)]; [reflexivity|].
    apply Nat.eqb_neq in Hlen. now rewrite Hlen.
Qed.

Lemma parse_color_normalizes_witness :
  let E := demo_env [] [] in
  snd (parse_color E (txt "255,0,0")) = false /\
  (Exists (fun c => 1 < c) [255; 0; 0] ->
   fst (parse_color E (txt "255,0,0")) = map (fun c => c / 255) [255; 0; 0])
  /\
  (Forall (fun c => c <= 1) [255; 0; 0] ->
   fst (parse_color E (txt "255,0,0")) = [255; 0; 0]) /\
  (Forall (fun c => 0 <= c /\ c <= 255) [255; 0; 0] ->
   Forall unit_interval (fst (parse_color E (txt "255,0,0")))).
Proof.
  apply (proj1 (parse_color_normalizes (demo_env [] []) (txt "255,0,0"))
           [255; 0; 0]); reflexivity.
Defined.

(** C7 as stated fails: the color strings [300,0,0] and [-1,0,0] have
    three numeric components, and the resulting triples have a component
    above 1, respectively below 0. *)
Lemma color_component_outside_unit_interval :
  let E := demo_env [] [] in
  map_raising (fun c => py_float E (str_strip E c))
    (split_comma (txt "300,0,0")) = Some [300; 0; 0] /\
  ~ Forall unit_interval (fst (parse_color E (txt "300,0,0"))) /\
  map_raising (fun c => py_float E (str_strip E c))
    (split_comma (txt "-1,0,0")) = Some [-1; 0; 0] /\
  ~ Forall unit_interval (fst (parse_color E (txt "-1,0,0"))).
Proof.
  split; [reflexivity|]. split; [|split; [reflexivity|]].
  - intros H. inversion H as [|c l [_ Hhi] _]; subst.
    vm_compute in Hhi. apply Hhi. reflexivity.
  - intros H. inversion H as [|c l [Hlo _] _]; subst.
    vm_compute in Hlo. apply Hlo. reflexivity.
Qed.

Example color_255_0_0 :
  Forall2 Qeq (fst (parse_color (demo_env [] []) (txt "255,0,0"))) [1; 0; 0].
Proof. vm_compute. repeat constructor. Qed.

Example color_half :
  Forall2 Qeq (fst (parse_color (demo_env [] []) (txt "0.5,0.5,0.5")))
    [0.5; 0.5; 0.5].
Proof. vm_compute. repeat constructor. Qed.

Example color_malformed :
  parse_color (demo_env [] []) (txt "red") = ([0; 0; 0], true) /\
  parse_color (demo_env [] []) (txt "1,2") = ([0; 0; 0], true).
Proof. split; reflexivity. Qed.

(** * Further properties *)

(** ** Runs *)

Lemma last_cons_default {A : Type} (l : list A) : forall a d,
  last (a :: l) d = last l a.
Proof.
  induction l as [|b l IH]; intros a d; [reflexivity|].
  change (last (a :: b :: l) d) with (last (b :: l) d).
  now rewrite !IH.
Qed.

(** Scanning [s] and then a character [b] of another class than the last
    one scanned closes the run at [b]. *)
Lemma segment_loop_boundary (b : char) (t : text) (s : text) :
  forall cur c,
  last (map is_chinese s) c <> is_chinese b ->
  segment_loop (s ++ b :: t) [] cur c
  = segment_loop s [] cur c ++ segment_text (b :: t).
Proof.
  induction s as [|ch s IH]; intros cur c Hlast.
  - simpl app at 1. rewrite segment_loop_step.
    destruct (Bool.eqb (is_chinese b) c) eqn:Hb.
    + apply eqb_prop in Hb. simpl in Hlast. congruence.
    + reflexivity.
  - change ((ch :: s) ++ b :: t) with (ch :: (s ++ b :: t)).
    simpl map in Hlast. rewrite last_cons_default in Hlast.
    rewrite !segment_loop_step.
    destruct (Bool.eqb (is_chinese ch) c) eqn:Hc.
    + apply eqb_prop in Hc. subst c. now apply IH.
    + simpl. f_equal. now apply IH.
Qed.

(** The class of the last character of a line that ends with [a]. *)
Lemma last_class_of_line (s : text) (a ch0 : char) (s' : text) :
  s ++ [a] = ch0 :: s' ->
  last (map is_chinese s') (is_chinese ch0) = is_chinese a.
Proof.
  intros Hs.
  assert (Hl : last (ch0 :: s') ch0 = a) by (rewrite <- Hs; apply last_last).
  rewrite last_cons_default in Hl. rewrite <- Hl. clear Hl Hs.
  revert ch0. induction s' as [|x s' IH]; intros ch0; [reflexivity|].
  simpl map. rewrite !last_cons_default. apply IH.
Qed.

(** X1. Where a character [a] is followed by a character [b] of the other
    class, the runs of the line are the runs of the part up to [a]
    followed by the runs of the part from [b] on: no run crosses a change
    of class. *)
Theorem segment_text_app_at_boundary (s t : text) (a b : char) :
  is_chinese a <> is_chinese b ->
  segment_text ((s ++ [a]) ++ b :: t)
  = segment_text (s ++ [a]) ++ segment_text (b :: t).
Proof.
  intros Hab.
  destruct (s ++ [a]) as [|ch0 s'] eqn:Hs; [now destruct s|].
  change ((ch0 :: s') ++ b :: t) with (ch0 :: (s' ++ b :: t)).
  unfold segment_text at 1 2.
  apply segment_loop_boundary.
  now rewrite (last_class_of_line s a ch0 s' Hs).
Qed.

Lemma segment_text_app_at_boundary_witness :
  segment_text ((txt "Hell" ++ [111%N]) ++ 0x4E16%N :: [0x754C%N])
  = segment_text (txt "Hell" ++ [111%N])
    ++ segment_text (0x4E16%N :: [0x754C%N]).
Proof.
  apply (segment_text_app_at_boundary (txt "Hell") [0x754C%N] 111%N
           0x4E16%N).
  vm_compute. discriminate.
Defined.

(** X2. Segmenting is inverse to concatenating runs: if the runs [rs] are
    non-empty, each made of characters of its class, and adjacent runs
    differ in class, then the line made of their contents is segmented
    into exactly [rs]. *)
Theorem segment_text_of_runs (rs : list segment) :
  Forall (fun s : segment => fst s <> []) rs ->
  Forall (fun s : segment => Forall (fun ch => is_chinese ch = snd s) (fst s))
         rs ->
  adjacent_differ rs ->
  segment_text (concat (map fst rs)) = rs.
Proof.
  induction rs as [|[run b] rs IH]; intros Hne Hclass Hadj; [reflexivity|].
  inversion Hne as [|? ? Hrun_ne Hne']; subst.
  inversion Hclass as [|? ? Hrun Hclass']; subst.
  simpl in Hrun_ne, Hrun. simpl concat.
  assert (Hadj' : adjacent_differ rs).
  { destruct rs as [|s2 rs']; [exact I|]. apply Hadj. }
  rewrite (segment_text_first_run run (concat (map fst rs)) b Hrun_ne Hrun).
  - now rewrite IH.
  - destruct rs as [|[run2 b2] rs']; [exact I|].
    inversion Hne' as [|? ? Hne2 _]; subst.
    inversion Hclass' as [|? ? Hrun2 _]; subst.
    simpl in Hne2, Hrun2. destruct Hadj as [Hb _]. simpl in Hb.
    destruct run2 as [|ch run2]; [congruence|]. simpl.
    inversion Hrun2; subst. congruence.
Qed.

Lemma segment_text_of_runs_witness :
  segment_text (concat (map fst [(txt "Hello", false);
                                 ([0x4E16; 0x754C]%N, true);
                                 (txt "!", false)]))
  = [(txt "Hello", false); ([0x4E16; 0x754C]%N, true); (txt "!", false)].
Proof.
  apply (segment_text_of_runs [(txt "Hello", false);
                               ([0x4E16; 0x754C]%N, true);
                               (txt "!", false)]).
  - repeat constructor; discriminate.
  - repeat constructor.
  - simpl. repeat split; discriminate.
Defined.

(** ** Widths, continued *)




(** ** Splitting, continued *)

Lemma firstn_le_app {A : Type} (k : nat) : forall (k' : nat) (l : list A),
  (k <= k')%nat -> firstn k' l = firstn k l ++ firstn (k' - k) (skipn k l).
Proof.
  induction k as [|k IH]; intros k' l Hle.
  - now rewrite Nat.sub_0_r.
  - destruct k' as [|k']; [lia|].
    destruct l as [|a l]; [simpl; now rewrite firstn_nil|].
    simpl. f_equal. apply IH. lia.
Qed.

Section SplittingMore.

Variables (chinese_font latin_font : Font) (font_size char_adjust : Q).

Local Abbreviation scan_index allowed_width line :=
  (split_loop chinese_font latin_font font_size char_adjust allowed_width
     line 0%nat 0 0%nat).
Local Abbreviation index_of allowed_width line :=
  (split_index_of line allowed_width chinese_font latin_font font_size
     char_adjust).
Local Abbreviation within allowed_width line k :=
  (stays_within chinese_font latin_font font_size char_adjust allowed_width
     line k).
Local Abbreviation chw :=
  (ch_width chinese_font latin_font font_size char_adjust).

(** What the scan of a whole line finds. *)
Lemma scan_index_spec (allowed_width : Q) (line : text) :
  (scan_index allowed_width line <= length line)%nat /\
  within allowed_width line (scan_index allowed_width line) /\
  ((scan_index allowed_width line < length line)%nat ->
   ~ within allowed_width line (S (scan_index allowed_width line))).
Proof.
  pose proof (split_loop_scan chinese_font latin_font font_size char_adjust
                allowed_width line 0 0) as Hscan.
  cbv zeta in Hscan. rewrite !Nat.sub_0_r in Hscan.
  destruct Hscan as (Hk & Hin & Hout).
  split; [lia|]. split; [exact Hin|].
  intros Hlt Hstays. apply (Hout Hlt). apply Hstays. lia.
Qed.

(** The scan reaches the end of the line exactly when the running sum
    stays within the allowed width all along the line. *)
Lemma scan_index_whole (allowed_width : Q) (line : text) :
  scan_index allowed_width line = length line <->
  within allowed_width line (length line).
Proof.
  destruct (scan_index_spec allowed_width line) as (Hk & Hin & Hout).
  split.
  - intros Heq. now rewrite Heq in Hin.
  - intros Hall.
    destruct (Nat.eq_dec (scan_index allowed_width line) (length line))
      as [Heq|Hne]; [exact Heq|].
    exfalso. apply Hout; [lia|].
    intros j Hj. apply Hall. lia.
Qed.

Lemma split_whole_line (allowed_width : Q) (line : text) :
  line <> [] ->
  within allowed_width line (length line) ->
  split_text_line line allowed_width chinese_font latin_font font_size
    char_adjust = (line, []).
Proof.
  intros Hne Hall. apply scan_index_whole in Hall.
  unfold split_text_line, split_index_of. rewrite Hall.
  destruct line as [|ch0 rest]; [congruence|].
  change (Nat.eqb (length (ch0 :: rest)) 0) with false. cbv iota.
  now rewrite firstn_all, skipn_all.
Qed.

(** Widening the allowed width never makes the scan stop earlier. *)
Lemma split_loop_monotone (a a' : Q) (rest : text) : forall i cum_width,
  a <= a' ->
  (split_loop chinese_font latin_font font_size char_adjust a rest i
     cum_width i
   <= split_loop chinese_font latin_font font_size char_adjust a' rest i
        cum_width i)%nat.
Proof.
  induction rest as [|ch rest IH]; intros i cum Hle; simpl; [lia|].
  destruct (Qle_bool (cum + chw ch) a) eqn:Ha.
  - apply Qle_bool_iff in Ha.
    assert (Ha' : Qle_bool (cum + chw ch) a' = true)
      by (apply Qle_bool_iff; lra).
    rewrite Ha'. now apply IH.
  - destruct (Qle_bool (cum + chw ch) a'); [|lia].
    pose proof (split_loop_scan chinese_font latin_font font_size
                  char_adjust a' rest (S i) (cum + chw ch)) as Hscan.
    cbv zeta in Hscan. lia.
Qed.

Lemma split_index_of_monotone (a a' : Q) (line : text) :
  a <= a' -> (index_of a line <= index_of a' line)%nat.
Proof.
  intros Hle. unfold split_index_of.
  pose proof (split_loop_monotone a a' line 0 0 Hle) as Hmono.
  destruct (Nat.eqb_spec (scan_index a line) 0) as [Hz|Hnz];
    destruct (Nat.eqb_spec (scan_index a' line) 0) as [Hz'|Hnz']; lia.
Qed.

End SplittingMore.

(** X6. A wider allowed width never shortens the first part: the prefix
    returned for [allowed_width] is a prefix of the one returned for any
    larger allowed width. *)
Theorem split_prefix_grows_with_width (line : text) (a a' : Q)
    (chinese_font latin_font : Font) (font_size char_adjust : Q) :
  a <= a' ->
  exists more,
    fst (split_text_line line a' chinese_font latin_font font_size
           char_adjust)
    = fst (split_text_line line a chinese_font latin_font font_size
             char_adjust) ++ more.
Proof.
  intros Hle. unfold split_text_line. simpl.
  pose proof (split_index_of_monotone chinese_font latin_font font_size
                char_adjust a a' line Hle) as Hmono.
  eexists. apply firstn_le_app. exact Hmono.
Qed.

Lemma split_prefix_grows_with_width_witness :
  exists more,
    fst (split_text_line (txt "ABCDE") 10 (fixed_font 10) (fixed_font 3) 12
           (-0.5))
    = fst (split_text_line (txt "ABCDE") 4 (fixed_font 10) (fixed_font 3) 12
             (-0.5)) ++ more.
Proof.
  apply (split_prefix_grows_with_width (txt "ABCDE") 4 10 (fixed_font 10)
           (fixed_font 3) 12 (-0.5)).
  vm_compute. discriminate.
Defined.

(** X7. For a non-empty line, the second part returned by
    [split_text_line] is empty exactly when the running sum stays within
    [allowed_width] along the whole line, or the line is a single
    character. *)
Theorem split_suffix_empty_iff (line : text) (allowed_width : Q)
    (chinese_font latin_font : Font) (font_size char_adjust : Q) :
  line <> [] ->
  (snd (split_text_line line allowed_width chinese_font latin_font font_size
          char_adjust) = [] <->
   stays_within chinese_font latin_font font_size char_adjust allowed_width
     line (length line) \/ length line = 1%nat).
Proof.
  intros Hne. split.
  - intros Hnil. unfold split_text_line, split_index_of in Hnil.
    simpl in Hnil.
    destruct (scan_index_spec chinese_font latin_font font_size char_adjust
                allowed_width line) as (Hk & Hin & _).
    set (k := split_loop chinese_font latin_font font_size char_adjust
                allowed_width line 0 0 0) in *.
    apply (f_equal (@length char)) in Hnil.
    rewrite length_skipn in Hnil. simpl in Hnil.
    destruct (Nat.eqb_spec k 0) as [Hz|Hnz].
    + right. destruct line; [congruence|simpl in *; lia].
    + left. replace (length line) with k by lia. exact Hin.
  - intros [Hall|Hone].
    + now rewrite (split_whole_line chinese_font latin_font font_size
                     char_adjust allowed_width line Hne Hall).
    + pose proof (split_index_of_bounds chinese_font latin_font font_size
                    char_adjust allowed_width line Hne) as Hk.
      unfold split_text_line. simpl. apply skipn_all2. lia.
Qed.

Lemma split_suffix_empty_iff_witness :
  snd (split_text_line (txt "ABCD") 10 (fixed_font 10) (fixed_font 3) 12
         (-0.5)) = [] <->
  stays_within (fixed_font 10) (fixed_font 3) 12 (-0.5) 10 (txt "ABCD")
    (length (txt "ABCD")) \/ length (txt "ABCD") = 1%nat.
Proof.
  apply (split_suffix_empty_iff (txt "ABCD") 10 (fixed_font 10)
           (fixed_font 3) 12 (-0.5)).
  discriminate.
Defined.

(** X8. Splitting is idempotent on the first part: for a non-empty line,
    splitting the prefix again at the same allowed width returns the
    prefix whole, with an empty second part. *)
Theorem split_prefix_stable (line : text) (allowed_width : Q)
    (chinese_font latin_font : Font) (font_size char_adjust : Q) :
  line <> [] ->
  let prefix :=
    fst (split_text_line line allowed_width chinese_font latin_font font_size
           char_adjust) in
  split_text_line prefix allowed_width chinese_font latin_font font_size
    char_adjust = (prefix, []).
Proof.
  intros Hne prefix. subst prefix.
  destruct line as [|ch0 rest]; [congruence|].
  destruct (Qlt_le_dec allowed_width
              (ch_width chinese_font latin_font font_size char_adjust ch0))
    as [Hover|Hfit].
  - assert (Hp : fst (split_text_line (ch0 :: rest) allowed_width
                        chinese_font latin_font font_size char_adjust)
                 = [ch0]).
    { unfold split_text_line, split_index_of.
      now rewrite (split_loop_overflow chinese_font latin_font font_size
                     char_adjust allowed_width ch0 rest Hover). }
    rewrite Hp. unfold split_text_line, split_index_of.
    now rewrite (split_loop_overflow chinese_font latin_font font_size
                   char_adjust allowed_width ch0 [] Hover).
  - destruct (scan_index_spec chinese_font latin_font font_size char_adjust
                allowed_width (ch0 :: rest)) as (Hk & Hin & Hout).
    set (k := split_loop chinese_font latin_font font_size char_adjust
                allowed_width (ch0 :: rest) 0 0 0) in *.
    assert (Hnz : k <> 0%nat).
    { intros Hz. rewrite Hz in Hout. apply Hout; [simpl; lia|].
      intros j Hj. replace j with 1%nat by lia.
      unfold run_from. simpl. lra. }
    assert (Hp : fst (split_text_line (ch0 :: rest) allowed_width
                        chinese_font latin_font font_size char_adjust)
                 = firstn k (ch0 :: rest)).
    { unfold split_text_line, split_index_of. cbn [fst]. fold k.
      destruct (Nat.eqb_spec k 0); [contradiction|reflexivity]. }
    rewrite Hp. apply split_whole_line.
    + destruct k; [congruence|]. discriminate.
    + rewrite length_firstn, Nat.min_l by exact Hk.
      intros j Hj. rewrite firstn_firstn, Nat.min_l by lia.
      now apply Hin.
Qed.

Lemma split_prefix_stable_witness :
  split_text_line
    (fst (split_text_line (txt "ABCDE") 10 (fixed_font 10) (fixed_font 3) 12
            (-0.5)))
    10 (fixed_font 10) (fixed_font 3) 12 (-0.5)
  = (fst (split_text_line (txt "ABCDE") 10 (fixed_font 10) (fixed_font 3) 12
            (-0.5)), []).
Proof.
  apply (split_prefix_stable (txt "ABCDE") 10 (fixed_font 10) (fixed_font 3)
           12 (-0.5)).
  discriminate.
Defined.

(** ** Rows, continued *)

Section Cursor.

Variables (chinese_font_obj latin_font_obj : Font).
Variables (font_size char_adjust : Q) (color_black : list Q).
Variable page_index : nat.




End Cursor.






(** ** Configuration and input, continued *)

(** X12. Whatever the color string, the color handed to [insert_text] has
    exactly three components. *)
Theorem parse_color_three_components (E : Env) (color_str : text) :
  length (fst (parse_color E color_str)) = 3%nat.
Proof.
  unfold parse_color.
  destruct (map_raising (fun c => py_float E (str_strip E c))
              (split_comma color_str)) as [color_values|]; [|reflexivity].
  destruct (Nat.eqb_spec (length color_values) 3) as [Hlen|Hlen]; simpl;
    [|reflexivity].
  destruct (existsb (fun c => Qgt_bool c 1) color_values); simpl.
  - now rewrite length_map.
  - exact Hlen.
Qed.

Lemma text_eqb_nil_false (s : text) : text_eqb s [] = false <-> s <> [].
Proof.
  destruct s; simpl; split; congruence.
Qed.

(** X13. The lines read from the text file are the stripped forms of raw
    lines, in the order of the file; none of them is empty, and there are
    no more of them than raw lines: a line that is blank once stripped is
    dropped and takes no page. *)
Theorem read_lines_nonempty (E : Env) (raw : list text) :
  Forall (fun line => line <> []) (read_lines E raw) /\
  (forall line, In line (read_lines E raw) <->
                exists r, In r raw /\ str_strip E r = line /\ line <> []) /\
  (length (read_lines E raw) <= length raw)%nat /\
  (forall raw', read_lines E (raw ++ raw')
                = read_lines E raw ++ read_lines E raw').
Proof.
  unfold read_lines. repeat split.
  - apply Forall_forall. intros line Hin.
    apply in_map_iff in Hin. destruct Hin as (r & <- & Hr).
    apply filter_In in Hr. destruct Hr as [_ Hr].
    apply negb_true_iff in Hr. now apply text_eqb_nil_false.
  - intros Hin. apply in_map_iff in Hin. destruct Hin as (r & <- & Hr).
    apply filter_In in Hr. destruct Hr as [Hr Hne].
    exists r. repeat split; [exact Hr|].
    apply negb_true_iff in Hne. now apply text_eqb_nil_false.
  - intros (r & Hr & <- & Hne). apply in_map_iff. exists r.
    split; [reflexivity|]. apply filter_In. split; [exact Hr|].
    apply negb_true_iff. now apply text_eqb_nil_false.
  - rewrite length_map. induction raw as [|r raw IH]; simpl; [lia|].
    destruct (negb (text_eqb (str_strip E r) [])); simpl; lia.
  - intros raw'. now rewrite filter_app, map_app.
Qed.

(** ** What is inserted *)

Section Inserted.

Variables (chinese_font_obj latin_font_obj : Font).
Variables (font_size char_adjust : Q) (color_black : list Q).

(** A call as the loops make them on page [page_index]. *)
Local Abbreviation made_on page_index :=
  (fun c => font_matches_text c /\ ins_page c = page_index /\
            ins_fontsize c = font_size /\ ins_color c = color_black).

Lemma insert_letters_made (page_index : nat) (verbose : bool) (y : Q)
    (seg : text) :
  Forall (fun ch => is_chinese ch = false) seg ->
  forall x w,
  exists r,
    calls (snd (insert_letters latin_font_obj font_size char_adjust
                  color_black page_index verbose y seg (x, w)))
    = calls w ++ r /\
    Forall (made_on page_index) r.
Proof.
  unfold insert_letters.
  induction 1 as [|letter seg Hletter _ IH]; intros x w; simpl.
  - exists []. now rewrite app_nil_r.
  - match goal with
    | |- context [fold_left _ seg (?x1, ?w1)] =>
        destruct (IH x1 w1) as (r & Hc & Hr)
    end.
    exists ({| ins_page := page_index; ins_x := x; ins_y := y;
               ins_text := [letter]; ins_fontname := latin_font_name;
               ins_fontsize := font_size; ins_color := color_black |} :: r).
    rewrite Hc. split.
    + destruct verbose; simpl; now rewrite <- app_assoc.
    + constructor; [|exact Hr]. simpl. repeat split.
      right. simpl. split; [reflexivity|]. now exists letter.
Qed.

Lemma insert_segments_made (page_index : nat) (verbose : bool) (y : Q)
    (segments : list segment) :
  Forall (fun s : segment => fst s <> []) segments ->
  Forall (fun s : segment => Forall (fun ch => is_chinese ch = snd s) (fst s))
         segments ->
  forall x w,
  exists r,
    calls
      (snd (fold_left
              (fun (st : Q * World) (s : segment) =>
                 let (seg, seg_is_ch) := s in
                 if seg_is_ch
                 then
                   let (current_x, w) := st in
                   let w := insert_text page_index current_x y seg
                              chinese_font_name font_size color_black w in
                   let seg_width :=
                     text_length chinese_font_obj seg font_size in
                   let w := if verbose
                            then log_func (MsgChineseSeg seg seg_width) w
                            else w in
                   (current_x + seg_width, w)
                 else insert_letters latin_font_obj font_size char_adjust
                        color_black page_index verbose y seg st)
              segments (x, w)))
    = calls w ++ r /\
    Forall (made_on page_index) r.
Proof.
  intros Hne Hclass. revert Hne.
  induction Hclass as [|[seg b] segments Hseg _ IH]; intros Hne x w;
    simpl.
  - exists []. now rewrite app_nil_r.
  - inversion Hne as [|? ? Hseg_ne Hne']; subst.
    simpl in Hseg, Hseg_ne. destruct b; simpl.
    + match goal with
      | |- context [fold_left _ segments (?x1, ?w1)] =>
          destruct (IH Hne' x1 w1) as (r & Hc & Hr)
      end.
      exists ({| ins_page := page_index; ins_x := x; ins_y := y;
                 ins_text := seg; ins_fontname := chinese_font_name;
                 ins_fontsize := font_size; ins_color := color_black |}
              :: r).
      split.
      * etransitivity; [exact Hc|].
        destruct verbose; simpl; now rewrite <- app_assoc.
      * constructor; [|exact Hr]. simpl. repeat split.
        left. simpl. repeat split; assumption.
    + destruct (insert_letters_made page_index verbose y seg Hseg x w)
        as (r1 & Hc1 & Hr1).
      destruct (insert_letters latin_font_obj font_size char_adjust
                  color_black page_index verbose y seg (x, w)) as [x1 w1].
      destruct (IH Hne' x1 w1) as (r2 & Hc2 & Hr2).
      simpl in Hc1. exists (r1 ++ r2). split.
      * etransitivity; [exact Hc2|]. now rewrite Hc1, app_assoc.
      * apply Forall_app. now split.
Qed.

Lemma insert_row_made (page_index : nat) (verbose : bool) (y : Q)
    (row : text) (x : Q) (w : World) :
  exists r,
    calls (snd (insert_row chinese_font_obj latin_font_obj font_size
                  char_adjust color_black page_index verbose y row (x, w)))
    = calls w ++ r /\
    Forall (made_on page_index) r.
Proof.
  apply insert_segments_made.
  - destruct row as [|ch0 rest]; [constructor|].
    apply segment_loop_nonempty. discriminate.
  - apply segment_text_same_class.
Qed.

Lemma insert_line_made (page_index : nat) (insert_x insert_y : Q)
    (text_align text_line : text) (page : Page) (w w' : World) :
  insert_line chinese_font_obj latin_font_obj font_size char_adjust
    color_black page_index insert_x insert_y text_align text_line page w
  = Some w' ->
  exists r, calls w' = calls w ++ r /\ Forall (made_on page_index) r.
Proof.
  unfold insert_line. intros Hrun.
  destruct (Qgt_bool _ _).
  - destruct (split_text_line _ _ _ _ _ _) as [first_part second_part].
    destruct (start_x _ _ _ _) as [x1|]; [|discriminate].
    destruct (start_x _ _ _ _) as [x2|]; [|discriminate].
    injection Hrun as <-.
    match goal with
    | |- context [insert_row _ _ _ _ _ _ _ _ first_part (x1, ?w1)] =>
        destruct (insert_row_made page_index false
                    (rect_height page - insert_y - font_size - 2)
                    first_part x1 w1) as (r1 & Hc1 & Hr1)
    end.
    match goal with
    | |- context [insert_row _ _ _ _ _ _ _ _ second_part (x2, ?w2)] =>
        destruct (insert_row_made page_index false
                    (rect_height page - insert_y) second_part x2 w2)
          as (r2 & Hc2 & Hr2)
    end.
    exists (r1 ++ r2). rewrite Hc2, Hc1. simpl. rewrite app_assoc.
    split; [reflexivity|]. apply Forall_app. now split.
  - destruct (start_x _ _ _ _) as [x|]; [|discriminate].
    injection Hrun as <-.
    match goal with
    | |- context [insert_row _ _ _ _ _ _ _ _ text_line (x, ?w1)] =>
        destruct (insert_row_made page_index true
                    (rect_height page - insert_y) text_line x w1)
          as (r & Hc & Hr)
    end.
    exists r. rewrite Hc. simpl. now split.
Qed.

(** The calls made by the loop over the pages go to pages of the
    document. *)
Lemma for_range_made (insert_x insert_y : Q) (text_align : text)
    (lines : list text) (doc : list Page) (indices : list nat) :
  forall w toc w' toc',
  for_range
    (page_step chinese_font_obj latin_font_obj font_size char_adjust
       color_black insert_x insert_y text_align lines doc)
    indices (w, toc) = Some (w', toc') ->
  exists r,
    calls w' = calls w ++ r /\
    Forall (fun c => font_matches_text c /\
                     (ins_page c < length doc)%nat /\
                     ins_fontsize c = font_size /\
                     ins_color c = color_black) r.
Proof.
  induction indices as [|i indices IH]; intros w toc w' toc' Hrun;
    simpl in Hrun.
  - injection Hrun as <- _. exists []. now rewrite app_nil_r.
  - destruct (nth_error lines i) as [text_line|]; [|discriminate].
    destruct (nth_error doc i) as [page|] eqn:Hpage; [|discriminate].
    destruct (insert_line chinese_font_obj latin_font_obj font_size
                char_adjust color_black i insert_x insert_y text_align
                text_line page w) as [w1|] eqn:Hline; [|discriminate].
    destruct (insert_line_made i insert_x insert_y text_align text_line
                page w w1 Hline) as (r1 & Hc1 & Hr1).
    destruct (IH _ _ _ _ Hrun) as (r2 & Hc2 & Hr2).
    exists (r1 ++ r2). rewrite Hc2, Hc1, app_assoc.
    split; [reflexivity|]. apply Forall_app. split; [|exact Hr2].
    eapply Forall_impl; [|exact Hr1].
    intros c (Hfont & Hpg & Hsize & Hcolor). repeat split; try assumption.
    rewrite Hpg. apply nth_error_Some. congruence.
Qed.

End Inserted.

(** ** The run as a whole *)

(** [perform_insertion] reads the configuration and goes on with it. *)
Lemma perform_insertion_configured (E : Env)
    (input_pdf overlay_txt output_pdf : text)
    (insert_x insert_y font_size color_str text_align : text)
    (x y size : Q) :
  py_float E insert_x = Some x ->
  py_float E insert_y = Some y ->
  py_float E font_size = Some size ->
  let bad :=
    negb (existsb (text_eqb (str_strip E (str_lower E text_align)))
            [txt "left"; txt "center"; txt "right"]) in
  let w0 := {| calls := []; logged := if bad then [MsgBadAlign] else [] |} in
  let w1 := if snd (parse_color E color_str)
            then log_func MsgBadColor w0 else w0 in
  perform_insertion E input_pdf overlay_txt output_pdf insert_x insert_y
    font_size color_str text_align
  = insertion_after_config E input_pdf overlay_txt output_pdf x y size
      (fst (parse_color E color_str))
      (if bad then txt "left" else str_strip E (str_lower E text_align)) w1.
Proof.
  intros Hx Hy Hsize bad w0 w1. subst w1 w0.
  unfold perform_insertion. rewrite Hx, Hy, Hsize. fold bad.
  destruct bad; destruct (parse_color E color_str) as [color [|]];
    reflexivity.
Qed.


Section AfterConfig.

Variable E : Env.
Variables (input_pdf overlay_txt output_pdf : text).
Variables (insert_x insert_y font_size : Q) (color_black : list Q).
Variable text_align : text.

Local Abbreviation go_on w :=
  (insertion_after_config E input_pdf overlay_txt output_pdf insert_x
     insert_y font_size color_black text_align w).

(** An early return inserts nothing and logs one more message, which
    reports the failure. *)
Lemma after_config_returned (w w' : World) :
  go_on w = Returned w' ->
  calls w' = calls w /\
  exists m, logged w' = logged w ++ [m] /\ reports_failure m = true.
Proof.
  unfold insertion_after_config. intros Hrun.
  destruct (negb (path_exists E overlay_txt));
    [injection Hrun as <-; split; [reflexivity|eexists; now split]|].
  destruct (file_lines E overlay_txt) as [raw|];
    [|injection Hrun as <-; split; [reflexivity|eexists; now split]].
  destruct (fitz_open E input_pdf) as [doc|];
    [|injection Hrun as <-; split; [reflexivity|eexists; now split]].
  destruct (fitz_Font E chinese_font_name) as [chinese_font_obj|];
    [|injection Hrun as <-; split; [reflexivity|eexists; now split]].
  destruct (fitz_Font E latin_font_name) as [latin_font_obj|];
    [|discriminate].
  cbv zeta in Hrun.
  destruct (insert_pages _ _ _ _ _ _ _ _ _ _ _ _) as [[w2 toc]|];
    [|discriminate].
  destruct (doc_save E output_pdf); discriminate.
Qed.


(** What a completed run has inserted. *)
Lemma after_config_completed (w w' : World) (toc : list Bookmark)
    (saved : bool) :
  go_on w = Completed w' toc saved ->
  exists doc r,
    fitz_open E input_pdf = Some doc /\
    calls w' = calls w ++ r /\
    Forall (fun c => font_matches_text c /\
                     (ins_page c < length doc)%nat /\
                     ins_fontsize c = font_size /\
                     ins_color c = color_black) r /\
    saved = doc_save E output_pdf /\
    exists ms, logged w'
               = ms ++ [if saved then MsgSaved output_pdf
                        else MsgSaveFailed].
Proof.
  unfold insertion_after_config. intros Hrun.
  destruct (negb (path_exists E overlay_txt)); [discriminate|].
  destruct (file_lines E overlay_txt) as [raw|]; [|discriminate].
  destruct (fitz_open E input_pdf) as [doc|]; [|discriminate].
  destruct (fitz_Font E chinese_font_name) as [chinese_font_obj|];
    [|discriminate].
  destruct (fitz_Font E latin_font_name) as [latin_font_obj|];
    [|discriminate].
  cbv zeta in Hrun. unfold insert_pages in Hrun.
  destruct (for_range _ _ _) as [[w2 toc2]|] eqn:Hpages; [|discriminate].
  destruct (for_range_made chinese_font_obj latin_font_obj font_size (-0.5)
              color_black insert_x insert_y text_align (read_lines E raw)
              doc _ _ _ _ _ Hpages) as (r & Hc & Hr).
  destruct (log_bookmarks_same toc2 w2) as [Hc3 _].
  exists doc, r. split; [reflexivity|].
  destruct (doc_save E output_pdf); injection Hrun as <- <- <-; simpl;
    rewrite Hc3, Hc; repeat split; try assumption; eexists; reflexivity.
Qed.

End AfterConfig.

(** X14. A run that returns early has inserted nothing, and the last
    message of its log, and only the last, reports the failure (input not
    numeric, text file missing or unreadable, document that does not open,
    Chinese font that does not load). *)
Theorem early_return_inserts_nothing (E : Env)
    (input_pdf overlay_txt output_pdf : text)
    (insert_x insert_y font_size color_str text_align : text) (w : World) :
  perform_insertion E input_pdf overlay_txt output_pdf insert_x insert_y
    font_size color_str text_align = Returned w ->
  calls w = [] /\
  exists ms m,
    logged w = ms ++ [m] /\ reports_failure m = true /\
    Forall (fun m' => reports_failure m' = false) ms.
Proof.
  intros Hrun.
  destruct (py_float E insert_x) as [x|] eqn:Hx;
    [destruct (py_float E insert_y) as [y|] eqn:Hy;
     [destruct (py_float E font_size) as [size|] eqn:Hsize|]|].
  - rewrite (perform_insertion_configured E input_pdf overlay_txt output_pdf
               insert_x insert_y font_size color_str text_align x y size
               Hx Hy Hsize) in Hrun.
    apply after_config_returned in Hrun.
    destruct Hrun as (Hcalls & m & Hlog & Hm).
    split.
    + rewrite Hcalls. now destruct (snd (parse_color E color_str)).
    + eexists. exists m. split; [exact Hlog|]. split; [exact Hm|].
      destruct (snd (parse_color E color_str));
        destruct (negb (existsb _ _)); simpl; repeat constructor.
  - unfold perform_insertion in Hrun. rewrite Hx, Hy, Hsize in Hrun.
    injection Hrun as <-. split; [reflexivity|].
    exists [], MsgNotNumeric. repeat split. constructor.
  - unfold perform_insertion in Hrun. rewrite Hx, Hy in Hrun.
    injection Hrun as <-. split; [reflexivity|].
    exists [], MsgNotNumeric. repeat split. constructor.
  - unfold perform_insertion in Hrun. rewrite Hx in Hrun.
    injection Hrun as <-. split; [reflexivity|].
    exists [], MsgNotNumeric. repeat split. constructor.
Qed.

Lemma early_return_inserts_nothing_witness :
  calls {| calls := []; logged := [MsgNotNumeric] |} = [] /\
  exists ms m,
    logged {| calls := []; logged := [MsgNotNumeric] |} = ms ++ [m] /\
    reports_failure m = true /\
    Forall (fun m' => reports_failure m' = false) ms.
Proof.
  apply (early_return_inserts_nothing (demo_env [txt "one"] [a4])
           (txt "in.pdf") (txt "lines.txt") (txt "out.pdf")
           (txt "abc") (txt "8") (txt "12") (txt "0,0,0") (txt "center")).
  reflexivity.
Defined.



(** ** A message logged first *)

Section LogFirst.

Variable m : Msg.

Variables (chinese_font_obj latin_font_obj : Font).
Variables (font_size char_adjust : Q) (color_black : list Q).

Lemma insert_letters_log_first (page_index : nat) (verbose : bool) (y : Q)
    (seg : text) : forall x w,
  insert_letters latin_font_obj font_size char_adjust color_black
    page_index verbose y seg (x, log_first m w)
  = (fst (insert_letters latin_font_obj font_size char_adjust color_black
            page_index verbose y seg (x, w)),
     log_first m
       (snd (insert_letters latin_font_obj font_size char_adjust color_black
               page_index verbose y seg (x, w)))).
Proof.
  unfold insert_letters.
  induction seg as [|letter seg IH]; intros x w; [reflexivity|].
  simpl. destruct verbose.
  - exact (IH _ (log_func
                   (MsgLatinLetter letter
                      (text_length latin_font_obj [letter] font_size))
                   (insert_text page_index x y [letter] latin_font_name
                      font_size color_black w))).
  - exact (IH _ (insert_text page_index x y [letter] latin_font_name
                   font_size color_black w)).
Qed.

Lemma insert_row_log_first (page_index : nat) (verbose : bool) (y : Q)
    (row : text) (x : Q) (w : World) :
  insert_row chinese_font_obj latin_font_obj font_size char_adjust
    color_black page_index verbose y row (x, log_first m w)
  = (fst (insert_row chinese_font_obj latin_font_obj font_size char_adjust
            color_black page_index verbose y row (x, w)),
     log_first m
       (snd (insert_row chinese_font_obj latin_font_obj font_size
               char_adjust color_black page_index verbose y row (x, w)))).
Proof.
  unfold insert_row. generalize (segment_text row) as segments.
  intros segments. revert x w.
  induction segments as [|[seg [|]] segments IH]; intros x w;
    [reflexivity| |].
  - simpl. destruct verbose.
    + exact (IH _ (log_func
                     (MsgChineseSeg seg
                        (text_length chinese_font_obj seg font_size))
                     (insert_text page_index x y seg chinese_font_name
                        font_size color_black w))).
    + exact (IH _ (insert_text page_index x y seg chinese_font_name
                     font_size color_black w)).
  - simpl. rewrite insert_letters_log_first.
    destruct (insert_letters latin_font_obj font_size char_adjust color_black
                page_index verbose y seg (x, w)) as [x1 w1].
    apply IH.
Qed.

Lemma insert_line_log_first (page_index : nat) (insert_x insert_y : Q)
    (text_align text_line : text) (page : Page) (w : World) :
  insert_line chinese_font_obj latin_font_obj font_size char_adjust
    color_black page_index insert_x insert_y text_align text_line page
    (log_first m w)
  = option_map (log_first m)
      (insert_line chinese_font_obj latin_font_obj font_size char_adjust
         color_black page_index insert_x insert_y text_align text_line page
         w).
Proof.
  unfold insert_line.
  destruct (Qgt_bool _ _).
  - destruct (split_text_line _ _ _ _ _ _) as [first_part second_part].
    destruct (start_x _ _ _ _) as [x1|]; [|reflexivity].
    destruct (start_x _ _ _ _) as [x2|]; [|reflexivity].
    simpl option_map. f_equal.
    change (log_func ?a (log_func ?b (log_func ?c (log_first m w))))
      with (log_first m (log_func a (log_func b (log_func c w)))).
    rewrite insert_row_log_first. cbn [snd].
    rewrite insert_row_log_first. reflexivity.
  - destruct (start_x _ _ _ _) as [x|]; [|reflexivity].
    simpl option_map. f_equal.
    change (log_func ?a (log_func ?b (log_func ?c (log_first m w))))
      with (log_first m (log_func a (log_func b (log_func c w)))).
    rewrite insert_row_log_first. reflexivity.
Qed.

Lemma for_range_log_first (insert_x insert_y : Q) (text_align : text)
    (lines : list text) (doc : list Page) (indices : list nat) :
  forall w toc,
  for_range
    (page_step chinese_font_obj latin_font_obj font_size char_adjust
       color_black insert_x insert_y text_align lines doc)
    indices (log_first m w, toc)
  = option_map (fun st : World * list Bookmark =>
                  (log_first m (fst st), snd st))
      (for_range
         (page_step chinese_font_obj latin_font_obj font_size char_adjust
            color_black insert_x insert_y text_align lines doc)
         indices (w, toc)).
Proof.
  induction indices as [|i indices IH]; intros w toc; [reflexivity|].
  simpl.
  destruct (nth_error lines i) as [text_line|]; [|reflexivity].
  destruct (nth_error doc i) as [page|]; [|reflexivity].
  rewrite insert_line_log_first.
  destruct (insert_line chinese_font_obj latin_font_obj font_size
              char_adjust color_black i insert_x insert_y text_align
              text_line page w) as [w1|]; [|reflexivity].
  simpl. apply IH.
Qed.

Lemma log_bookmarks_log_first (toc : list Bookmark) : forall w,
  fold_left
    (fun w (b : Bookmark) =>
       let '(level, title, page) := b in
       log_func (MsgBookmark level title page) w)
    toc (log_first m w)
  = log_first m
      (fold_left
         (fun w (b : Bookmark) =>
            let '(level, title, page) := b in
            log_func (MsgBookmark level title page) w)
         toc w).
Proof.
  induction toc as [|[[level title] page] toc IH]; intros w; [reflexivity|].
  simpl. exact (IH (log_func (MsgBookmark level title page) w)).
Qed.

End LogFirst.

Lemma after_config_log_first (m : Msg) (font_size : Q)
    (color_black : list Q) (E : Env)
    (input_pdf overlay_txt output_pdf : text) (insert_x insert_y : Q)
    (text_align : text) (w : World) :
  insertion_after_config E input_pdf overlay_txt output_pdf insert_x
    insert_y font_size color_black text_align (log_first m w)
  = outcome_log_first m
      (insertion_after_config E input_pdf overlay_txt output_pdf insert_x
         insert_y font_size color_black text_align w).
Proof.
  unfold insertion_after_config.
  destruct (negb (path_exists E overlay_txt)); [reflexivity|].
  destruct (file_lines E overlay_txt) as [raw|]; [|reflexivity].
  destruct (fitz_open E input_pdf) as [doc|]; [|reflexivity].
  destruct (fitz_Font E chinese_font_name) as [cf|]; [|reflexivity].
  destruct (fitz_Font E latin_font_name) as [lf|]; [|reflexivity].
  cbv zeta. unfold insert_pages. rewrite for_range_log_first.
  destruct (for_range _ _ _) as [[w2 toc]|]; [|reflexivity].
  simpl. rewrite log_bookmarks_log_first.
  destruct (doc_save E output_pdf); reflexivity.
Qed.


(** X17. An alignment that is not [left], [center] or [right] once
    lower-cased and stripped is treated as [left]: the run ends as the run
    with the alignment [left] does, with the same insertions and the same
    bookmarks, and logs the same messages after one warning logged
    first. *)
Theorem invalid_alignment_is_left (E : Env)
    (input_pdf overlay_txt output_pdf : text)
    (insert_x insert_y font_size color_str text_align : text)
    (x y size : Q) :
  py_float E insert_x = Some x ->
  py_float E insert_y = Some y ->
  py_float E font_size = Some size ->
  str_strip E (str_lower E (txt "left")) = txt "left" ->
  existsb (text_eqb (str_strip E (str_lower E text_align)))
    [txt "left"; txt "center"; txt "right"] = false ->
  perform_insertion E input_pdf overlay_txt output_pdf insert_x insert_y
    font_size color_str text_align
  = outcome_log_first MsgBadAlign
      (perform_insertion E input_pdf overlay_txt output_pdf insert_x
         insert_y font_size color_str (txt "left")).
Proof.
  intros Hx Hy Hsize Hleft Hbad.
  rewrite !(perform_insertion_configured E input_pdf overlay_txt output_pdf
              insert_x insert_y font_size color_str _ x y size Hx Hy Hsize).
  rewrite Hbad, Hleft. simpl negb. cbv iota.
  destruct (snd (parse_color E color_str)).
  - exact (after_config_log_first MsgBadAlign size
             (fst (parse_color E color_str)) E input_pdf overlay_txt
             output_pdf x y (txt "left")
             (log_func MsgBadColor {| calls := []; logged := [] |})).
  - exact (after_config_log_first MsgBadAlign size
             (fst (parse_color E color_str)) E input_pdf overlay_txt
             output_pdf x y (txt "left") {| calls := []; logged := [] |}).
Qed.

Lemma invalid_alignment_is_left_witness :
  perform_insertion (demo_env [txt "one"] [a4])
    (txt "in.pdf") (txt "lines.txt") (txt "out.pdf")
    (txt "60") (txt "8") (txt "12") (txt "0,0,0") (txt "justify")
  = outcome_log_first MsgBadAlign
      (perform_insertion (demo_env [txt "one"] [a4])
         (txt "in.pdf") (txt "lines.txt") (txt "out.pdf")
         (txt "60") (txt "8") (txt "12") (txt "0,0,0") (txt "left")).
Proof.
  apply (invalid_alignment_is_left (demo_env [txt "one"] [a4])
           (txt "in.pdf") (txt "lines.txt") (txt "out.pdf")
           (txt "60") (txt "8") (txt "12") (txt "0,0,0") (txt "justify")
           60 8 12); reflexivity.
Defined.

(** ** Lines of one class *)

(** X18. A non-empty line of wide characters only is measured by a single
    call of the wide font on the whole line, without [char_adjust]; a
    non-empty line of narrow characters only is measured character by
    character with the narrow font, [char_adjust] added to each. *)
Theorem compute_line_width_one_class (line : text)
    (chinese_font latin_font : Font) (font_size char_adjust : Q) :
  line <> [] ->
  (Forall (fun ch => is_chinese ch = true) line ->
   segment_text line = [(line, true)] /\
   compute_line_width line chinese_font latin_font font_size char_adjust
   == text_length chinese_font line font_size) /\
  (Forall (fun ch => is_chinese ch = false) line ->
   segment_text line = [(line, false)] /\
   compute_line_width line chinese_font latin_font font_size char_adjust
   == Qsum (map (fun ch => text_length latin_font [ch] font_size
                           + char_adjust) line)).
Proof.
  intros Hne.
  assert (Hone : forall b, Forall (fun ch => is_chinese ch = b) line ->
                           segment_text line = [(line, b)]).
  { intros b Hb.
    rewrite <- (app_nil_r line) at 1.
    now rewrite (segment_text_first_run line [] b Hne Hb I). }
  split; intros Hclass; (split; [now apply Hone|]);
    rewrite compute_line_width_runs; unfold spec_measure;
    rewrite (Hone _ Hclass); unfold run_width; simpl; ring.
Qed.

Lemma compute_line_width_one_class_witness :
  (Forall (fun ch => is_chinese ch = true) [0x4E16; 0x754C]%N ->
   segment_text [0x4E16; 0x754C]%N = [([0x4E16; 0x754C]%N, true)] /\
   compute_line_width [0x4E16; 0x754C]%N (fixed_font 10) (fixed_font 5) 12
     (-0.5)
   == text_length (fixed_font 10) [0x4E16; 0x754C]%N 12) /\
  (Forall (fun ch => is_chinese ch = false) [0x4E16; 0x754C]%N ->
   segment_text [0x4E16; 0x754C]%N = [([0x4E16; 0x754C]%N, false)] /\
   compute_line_width [0x4E16; 0x754C]%N (fixed_font 10) (fixed_font 5) 12
     (-0.5)
   == Qsum (map (fun ch => text_length (fixed_font 5) [ch] 12 + -0.5)
                [0x4E16; 0x754C]%N)).
Proof.
  apply (compute_line_width_one_class [0x4E16; 0x754C]%N (fixed_font 10)
           (fixed_font 5) 12 (-0.5)).
  discriminate.
Defined.

(** * The engine may refuse *)

(** ** A refused call ends the run, an accepted one changes nothing *)

Section Refusal.

Variable R : Engine.

Local Abbreviation all_accepted w := (forallb (accepts_text R) (calls w)).

Lemma refused_stays_refused (w w' : World) (r : list Insert) :
  calls w' = calls w ++ r ->
  all_accepted w = false -> all_accepted w' = false.
Proof.
  intros -> H. rewrite forallb_app, H. reflexivity.
Qed.

Variables (chinese_font_obj latin_font_obj : Font).
Variables (font_size char_adjust : Q) (color_black : list Q).

Lemma insert_letters_on_accepting (page_index : nat) (verbose : bool)
    (y : Q) (seg : text) : forall x w,
  all_accepted w = true ->
  insert_letters_on R latin_font_obj font_size char_adjust color_black
    page_index verbose y seg (x, w)
  = if all_accepted
         (snd (insert_letters latin_font_obj font_size char_adjust
                 color_black page_index verbose y seg (x, w)))
    then Some (insert_letters latin_font_obj font_size char_adjust
                 color_black page_index verbose y seg (x, w))
    else None.
Proof.
  induction seg as [|letter seg IH]; intros x w Hw.
  - simpl. unfold insert_letters. simpl. now rewrite Hw.
  - simpl. unfold page_insert_text.
    set (c := {| ins_page := page_index; ins_x := x; ins_y := y;
                 ins_text := [letter]; ins_fontname := latin_font_name;
                 ins_fontsize := font_size; ins_color := color_black |}).
    set (w1 := if verbose
               then log_func
                      (MsgLatinLetter letter
                         (text_length latin_font_obj [letter] font_size))
                      (insert_text page_index x y [letter] latin_font_name
                         font_size color_black w)
               else insert_text page_index x y [letter] latin_font_name
                      font_size color_black w).
    assert (Hc1 : calls w1 = calls w ++ [c]) by (subst w1; now destruct verbose).
    change (insert_letters latin_font_obj font_size char_adjust color_black
              page_index verbose y (letter :: seg) (x, w))
      with (insert_letters latin_font_obj font_size char_adjust color_black
              page_index verbose y seg
              (x + (text_length latin_font_obj [letter] font_size
                    + char_adjust), w1)).
    destruct (accepts_text R c) eqn:Hc.
    + apply IH. rewrite Hc1, forallb_app, Hw. simpl. now rewrite Hc.
    + destruct (insert_letters_appends latin_font_obj font_size char_adjust
                  color_black page_index verbose y seg
                  (x + (text_length latin_font_obj [letter] font_size
                        + char_adjust)) w1) as (r & (Hr & _) & _).
      rewrite (refused_stays_refused w1 _ r Hr); [reflexivity|].
      rewrite Hc1, forallb_app. simpl. rewrite Hc.
      now rewrite andb_false_r.
Qed.

Lemma insert_row_on_accepting (page_index : nat) (verbose : bool) (y : Q)
    (row : text) (x : Q) (w : World) :
  all_accepted w = true ->
  insert_row_on R chinese_font_obj latin_font_obj font_size char_adjust
    color_black page_index verbose y row (x, w)
  = if all_accepted
         (snd (insert_row chinese_font_obj latin_font_obj font_size
                 char_adjust color_black page_index verbose y row (x, w)))
    then Some (insert_row chinese_font_obj latin_font_obj font_size
                 char_adjust color_black page_index verbose y row (x, w))
    else None.
Proof.
  unfold insert_row_on, insert_row.
  generalize (segment_text row) as segments. intros segments.
  revert x w.
  induction segments as [|[seg [|]] segments IH]; intros x w Hw.
  - simpl. now rewrite Hw.
  - cbn [insert_segments_on fold_left]. unfold page_insert_text.
    set (c := {| ins_page := page_index; ins_x := x; ins_y := y;
                 ins_text := seg; ins_fontname := chinese_font_name;
                 ins_fontsize := font_size; ins_color := color_black |}).
    set (w1 := if verbose
               then log_func
                      (MsgChineseSeg seg
                         (text_length chinese_font_obj seg font_size))
                      (insert_text page_index x y seg chinese_font_name
                         font_size color_black w)
               else insert_text page_index x y seg chinese_font_name
                      font_size color_black w).
    assert (Hc1 : calls w1 = calls w ++ [c]) by (subst w1; now destruct verbose).
    match goal with
    | |- context [fold_left ?f segments ?st] =>
        change st with (x + text_length chinese_font_obj seg font_size, w1)
    end.
    destruct (accepts_text R c) eqn:Hc.
    + apply (IH (x + text_length chinese_font_obj seg font_size) w1).
      rewrite Hc1, forallb_app, Hw. simpl. now rewrite Hc.
    + destruct (insert_segments_appends chinese_font_obj latin_font_obj
                  font_size char_adjust color_black page_index verbose y
                  segments (x + text_length chinese_font_obj seg font_size)
                  w1) as (r & (Hr & _) & _).
      assert (Hw1 : all_accepted w1 = false).
      { rewrite Hc1, forallb_app. simpl. rewrite Hc.
        now rewrite andb_false_r. }
      match goal with
      | |- None = (if ?b then _ else _) =>
          replace b with false; [reflexivity|]
      end.
      symmetry. exact (refused_stays_refused w1 _ r Hr Hw1).
  - cbn [insert_segments_on fold_left].
    rewrite insert_letters_on_accepting by exact Hw.
    destruct (insert_letters latin_font_obj font_size char_adjust color_black
                page_index verbose y seg (x, w)) as [x1 w1].
    cbn [snd].
    destruct (all_accepted w1) eqn:Hw1.
    + now apply IH.
    + destruct (insert_segments_appends chinese_font_obj latin_font_obj
                  font_size char_adjust color_black page_index verbose y
                  segments x1 w1) as (r & (Hr & _) & _).
      match goal with
      | |- None = (if ?b then _ else _) =>
          replace b with false; [reflexivity|]
      end.
      symmetry. exact (refused_stays_refused w1 _ r Hr Hw1).
Qed.

End Refusal.

Section RefusalLines.

Variable R : Engine.

Local Abbreviation all_accepted w := (forallb (accepts_text R) (calls w)).

Variables (chinese_font_obj latin_font_obj : Font).
Variables (font_size char_adjust : Q) (color_black : list Q).
Variables (insert_x insert_y : Q) (text_align : text).

Lemma insert_line_on_accepting (page_index : nat) (text_line : text)
    (page : Page) (w : World) :
  all_accepted w = true ->
  insert_line_on R chinese_font_obj latin_font_obj font_size char_adjust
    color_black page_index insert_x insert_y text_align text_line page w
  = match insert_line chinese_font_obj latin_font_obj font_size char_adjust
            color_black page_index insert_x insert_y text_align text_line
            page w with
    | Some w' => if all_accepted w' then Some w' else None
    | None => None
    end.
Proof.
  intros Hw. unfold insert_line_on, insert_line.
  destruct (Qgt_bool _ _).
  - destruct (split_text_line _ _ _ _ _ _) as [first_part second_part].
    destruct (start_x _ _ _ _) as [x1|]; [|reflexivity].
    destruct (start_x _ _ _ _) as [x2|]; [|reflexivity].
    cbv zeta.
    rewrite insert_row_on_accepting by exact Hw.
    match goal with
    | |- context [insert_row _ _ _ _ _ _ _ _ first_part (x1, ?w1)] =>
        destruct (insert_row chinese_font_obj latin_font_obj font_size
                    char_adjust color_black page_index false
                    (rect_height page - insert_y - font_size - 2)
                    first_part (x1, w1)) as [x1' w1']
    end.
    cbn [snd].
    destruct (all_accepted w1') eqn:Hw1.
    + rewrite insert_row_on_accepting by exact Hw1.
      destruct (insert_row chinese_font_obj latin_font_obj font_size
                  char_adjust color_black page_index false
                  (rect_height page - insert_y) second_part (x2, w1'))
        as [x2' w2'].
      cbn [snd]. now destruct (all_accepted w2').
    + destruct (insert_row_appends chinese_font_obj latin_font_obj font_size
                  char_adjust color_black page_index false
                  (rect_height page - insert_y) second_part x2 w1')
        as (r & (Hr & _) & _).
      now rewrite (refused_stays_refused R w1' _ r Hr Hw1).
  - destruct (start_x _ _ _ _) as [x|]; [|reflexivity].
    cbv zeta.
    rewrite insert_row_on_accepting by exact Hw.
    match goal with
    | |- context [insert_row _ _ _ _ _ _ _ _ text_line (x, ?w1)] =>
        destruct (insert_row chinese_font_obj latin_font_obj font_size
                    char_adjust color_black page_index true
                    (rect_height page - insert_y) text_line (x, w1))
          as [x' w']
    end.
    cbn [snd]. now destruct (all_accepted w').
Qed.

Lemma for_range_on_accepting (lines : list text) (doc : list Page)
    (indices : list nat) : forall w toc,
  all_accepted w = true ->
  for_range
    (page_step_on R chinese_font_obj latin_font_obj font_size char_adjust
       color_black insert_x insert_y text_align lines doc)
    indices (w, toc)
  = match for_range
            (page_step chinese_font_obj latin_font_obj font_size char_adjust
               color_black insert_x insert_y text_align lines doc)
            indices (w, toc) with
    | Some (w', toc') => if all_accepted w' then Some (w', toc') else None
    | None => None
    end.
Proof.
  induction indices as [|i indices IH]; intros w toc Hw.
  - simpl. now rewrite Hw.
  - simpl.
    destruct (nth_error lines i) as [text_line|]; [|reflexivity].
    destruct (nth_error doc i) as [page|]; [|reflexivity].
    rewrite insert_line_on_accepting by exact Hw.
    destruct (insert_line chinese_font_obj latin_font_obj font_size
                char_adjust color_black i insert_x insert_y text_align
                text_line page w) as [w1|]; [|reflexivity].
    destruct (all_accepted w1) eqn:Hw1.
    + now apply IH.
    + destruct (for_range
                  (page_step chinese_font_obj latin_font_obj font_size
                     char_adjust color_black insert_x insert_y text_align
                     lines doc)
                  indices (w1, toc ++ [(1%nat, text_line, (i + 1)%nat)]))
        as [[w' toc']|] eqn:Hrun; [|reflexivity].
      destruct (for_range_made chinese_font_obj latin_font_obj font_size
                  char_adjust color_black insert_x insert_y text_align
                  lines doc indices _ _ _ _ Hrun) as (r & Hr & _).
      now rewrite (refused_stays_refused R w1 w' r Hr Hw1).
Qed.

End RefusalLines.

(** The run with the engine [R] is the run with an engine that accepts
    every call, as long as [R] accepts the calls of that run, its table of
    contents and the closing of the document; otherwise it ends by an
    exception. *)
Lemma perform_insertion_on_accepting (R : Engine) (E : Env)
    (input_pdf overlay_txt output_pdf : text)
    (insert_x insert_y font_size color_str text_align : text) :
  perform_insertion_on R E input_pdf overlay_txt output_pdf insert_x
    insert_y font_size color_str text_align
  = match perform_insertion E input_pdf overlay_txt output_pdf insert_x
            insert_y font_size color_str text_align with
    | Completed w toc saved =>
        if forallb (accepts_text R) (calls w) && accepts_toc R toc
           && closes R
        then Completed w toc saved else Raised
    | o => o
    end.
Proof.
  unfold perform_insertion_on, perform_insertion.
  destruct (py_float E insert_x) as [x|]; [|reflexivity].
  destruct (py_float E insert_y) as [y|]; [|reflexivity].
  destruct (py_float E font_size) as [size|]; [|reflexivity].
  set (w0 := if negb (existsb _ _) then _ else _).
  assert (Hw0 : calls (fst w0) = []) by (subst w0; now destruct (negb _)).
  destruct w0 as [w0 align]. cbn [fst] in Hw0.
  destruct (parse_color E color_str) as [color_black warned].
  set (w1 := if warned then log_func MsgBadColor w0 else w0).
  assert (Hw1 : calls w1 = []) by (subst w1; now destruct warned).
  clearbody w1.
  destruct (negb (path_exists E overlay_txt)); [reflexivity|].
  destruct (file_lines E overlay_txt) as [raw|]; [|reflexivity].
  destruct (fitz_open E input_pdf) as [doc|]; [|reflexivity].
  destruct (fitz_Font E chinese_font_name) as [cf|]; [|reflexivity].
  destruct (fitz_Font E latin_font_name) as [lf|]; [|reflexivity].
  cbv zeta. unfold insert_pages_on, insert_pages.
  rewrite for_range_on_accepting by (now rewrite Hw1).
  destruct (for_range _ _ _) as [[w2 toc]|]; [|reflexivity].
  destruct (log_bookmarks_same toc w2) as [Hc3 _].
  destruct (doc_save E output_pdf); cbv beta iota zeta; simpl calls;
    rewrite Hc3;
    destruct (forallb (accepts_text R) (calls w2));
    destruct (accepts_toc R toc); destruct (closes R); reflexivity.
Qed.

(** ** An engine that accepts the size and the color of the run *)

Section Accepted.

Variable R : Engine.
Variables (chinese_font_obj latin_font_obj : Font).
Variables (font_size char_adjust : Q) (color_black : list Q).

Hypothesis accepted :
  forall c, ins_fontsize c = font_size -> ins_color c = color_black ->
            accepts_text R c = true.

Lemma insert_letters_on_accepted (page_index : nat) (verbose : bool)
    (y : Q) (seg : text) : forall x w,
  insert_letters_on R latin_font_obj font_size char_adjust color_black
    page_index verbose y seg (x, w)
  = Some (insert_letters latin_font_obj font_size char_adjust color_black
            page_index verbose y seg (x, w)).
Proof.
  induction seg as [|letter seg IH]; intros x w; [reflexivity|].
  simpl. unfold page_insert_text.
  rewrite accepted by reflexivity.
  destruct verbose.
  - exact (IH _ (log_func
                   (MsgLatinLetter letter
                      (text_length latin_font_obj [letter] font_size))
                   (insert_text page_index x y [letter] latin_font_name
                      font_size color_black w))).
  - exact (IH _ (insert_text page_index x y [letter] latin_font_name
                   font_size color_black w)).
Qed.

Lemma insert_row_on_accepted (page_index : nat) (verbose : bool) (y : Q)
    (row : text) (x : Q) (w : World) :
  insert_row_on R chinese_font_obj latin_font_obj font_size char_adjust
    color_black page_index verbose y row (x, w)
  = Some (insert_row chinese_font_obj latin_font_obj font_size char_adjust
            color_black page_index verbose y row (x, w)).
Proof.
  unfold insert_row_on, insert_row.
  generalize (segment_text row) as segments. intros segments.
  revert x w.
  induction segments as [|[seg [|]] segments IH]; intros x w;
    [reflexivity| |].
  - cbn [insert_segments_on fold_left]. unfold page_insert_text.
    rewrite accepted by reflexivity.
    destruct verbose.
    + exact (IH _ (log_func
                     (MsgChineseSeg seg
                        (text_length chinese_font_obj seg font_size))
                     (insert_text page_index x y seg chinese_font_name
                        font_size color_black w))).
    + exact (IH _ (insert_text page_index x y seg chinese_font_name
                     font_size color_black w)).
  - cbn [insert_segments_on fold_left].
    rewrite insert_letters_on_accepted.
    destruct (insert_letters latin_font_obj font_size char_adjust color_black
                page_index verbose y seg (x, w)) as [x1 w1].
    apply IH.
Qed.

Lemma insert_line_on_accepted (page_index : nat) (insert_x insert_y : Q)
    (text_align text_line : text) (page : Page) (w : World) :
  insert_line_on R chinese_font_obj latin_font_obj font_size char_adjust
    color_black page_index insert_x insert_y text_align text_line page w
  = insert_line chinese_font_obj latin_font_obj font_size char_adjust
      color_black page_index insert_x insert_y text_align text_line page w.
Proof.
  unfold insert_line_on, insert_line.
  destruct (Qgt_bool _ _).
  - destruct (split_text_line _ _ _ _ _ _) as [first_part second_part].
    destruct (start_x _ _ _ _) as [x1|]; [|reflexivity].
    destruct (start_x _ _ _ _) as [x2|]; [|reflexivity].
    cbv zeta. rewrite insert_row_on_accepted.
    match goal with
    | |- context [insert_row _ _ _ _ _ _ _ _ first_part (x1, ?w1)] =>
        destruct (insert_row chinese_font_obj latin_font_obj font_size
                    char_adjust color_black page_index false
                    (rect_height page - insert_y - font_size - 2)
                    first_part (x1, w1)) as [x1' w1']
    end.
    cbn [snd]. rewrite insert_row_on_accepted.
    now destruct (insert_row _ _ _ _ _ _ _ _ second_part (x2, w1')).
  - destruct (start_x _ _ _ _) as [x|]; [|reflexivity].
    cbv zeta. rewrite insert_row_on_accepted.
    now destruct (insert_row _ _ _ _ _ _ _ _ text_line (x, _)).
Qed.

End Accepted.

Lemma font_matches_text_nonempty (c : Insert) :
  font_matches_text c -> ins_text c <> [].
Proof.
  intros [(_ & Hne & _)|(_ & ch & -> & _)]; [exact Hne|discriminate].
Qed.

Lemma row_of_nonempty_text (page_index : nat) (y : Q) (row : text)
    (r : list Insert) :
  is_row page_index y row r ->
  Forall (fun c => ins_text c <> []) r ->
  (r = [] <-> row = []).
Proof.
  intros [_ Hrow] Hne. split.
  - intros ->. now rewrite <- Hrow.
  - intros ->. destruct r as [|c r]; [reflexivity|].
    inversion Hne as [|? ? Hc _]; subst. simpl in Hrow.
    destruct (ins_text c); [congruence|discriminate].
Qed.

(** C5, amended. For a line processed on a page, with finite numbers, a
    valid alignment and an engine that accepts text of the configured
    size and color, with [allowed_width = page_width - 2 * insert_x] and
    [base_y = page_height - insert_y]: when the measured width of the line
    is at most [allowed_width], the calls of [insert_text] form one row,
    holding the line at height [base_y], and it is drawn when the line is
    not empty; otherwise the prefix returned by [split_text_line] is drawn
    as a row at height [base_y - font_size - 2], followed by the suffix as
    a row at height [base_y], and nothing at all is drawn for the suffix
    exactly when it is empty. *)
Theorem insert_line_on_rows (R : Engine)
    (chinese_font_obj latin_font_obj : Font)
    (font_size char_adjust : Q) (color_black : list Q) (page_index : nat)
    (insert_x insert_y : Q) (text_align : text) (text_line : text)
    (page : Page) (w : World) :
  valid_align text_align ->
  (forall c, ins_fontsize c = font_size -> ins_color c = color_black ->
             accepts_text R c = true) ->
  let allowed_width := rect_width page - 2 * insert_x in
  let base_y := rect_height page - insert_y in
  let line_width :=
    compute_line_width text_line chinese_font_obj latin_font_obj font_size
      char_adjust in
  let parts :=
    split_text_line text_line allowed_width chinese_font_obj latin_font_obj
      font_size char_adjust in
  exists w',
    insert_line_on R chinese_font_obj latin_font_obj font_size char_adjust
      color_black page_index insert_x insert_y text_align text_line page w
    = Some w' /\
    (line_width <= allowed_width ->
     exists r, calls w' = calls w ++ r /\
               is_row page_index base_y text_line r /\
               (r = [] <-> text_line = [])) /\
    (~ line_width <= allowed_width ->
     exists r1 r2,
       calls w' = calls w ++ r1 ++ r2 /\
       is_row page_index (base_y - font_size - 2) (fst parts) r1 /\
       is_row page_index base_y (snd parts) r2 /\
       (r1 = [] <-> text_line = []) /\
       (r2 = [] <-> snd parts = [])).
Proof.
  intros Halign Haccepted allowed_width base_y line_width parts.
  rewrite (insert_line_on_accepted R chinese_font_obj latin_font_obj
             font_size char_adjust color_black Haccepted).
  destruct (insert_line_appends chinese_font_obj latin_font_obj font_size
              char_adjust color_black insert_x insert_y text_align Halign
              page_index text_line page w)
    as (w' & r & Hrun & Hcalls & _ & Hone & Htwo).
  destruct (insert_line_made chinese_font_obj latin_font_obj font_size
              char_adjust color_black page_index insert_x insert_y
              text_align text_line page w w' Hrun) as (r' & Hcalls' & Hmade).
  assert (Hr : r' = r).
  { rewrite Hcalls in Hcalls'. now apply app_inv_head in Hcalls'. }
  subst r'.
  assert (Htexts : Forall (fun c => ins_text c <> []) r).
  { eapply Forall_impl; [|exact Hmade].
    intros c (Hfont & _). now apply font_matches_text_nonempty. }
  exists w'. split; [exact Hrun|]. split.
  - intros Hle. exists r. split; [exact Hcalls|].
    split; [now apply Hone|].
    apply (row_of_nonempty_text page_index base_y); [now apply Hone|].
    exact Htexts.
  - intros Hnle. destruct (Htwo Hnle) as (r1 & r2 & -> & Hr1 & Hr2).
    apply Forall_app in Htexts. destruct Htexts as [Ht1 Ht2].
    exists r1, r2. split; [exact Hcalls|]. split; [exact Hr1|].
    split; [exact Hr2|]. split.
    + rewrite (row_of_nonempty_text _ _ _ _ Hr1 Ht1).
      subst parts. unfold split_text_line. cbn [fst]. split.
      * intros Hnil. destruct text_line as [|ch0 rest]; [reflexivity|].
        pose proof (split_index_of_bounds chinese_font_obj latin_font_obj
                      font_size char_adjust allowed_width (ch0 :: rest))
          as Hk.
        specialize (Hk ltac:(discriminate)).
        destruct (split_index_of _ _ _ _ _ _) as [|k]; [lia|].
        discriminate Hnil.
      * intros ->. now rewrite firstn_nil.
    + exact (row_of_nonempty_text _ _ _ _ Hr2 Ht2).
Qed.

Lemma insert_line_on_rows_witness :
  let page := {| rect_width := 140; rect_height := 842 |} in
  let line_width :=
    compute_line_width (txt "ABCDE") (fixed_font 10) (fixed_font 5) 12
      (-0.5) in
  let parts :=
    split_text_line (txt "ABCDE") (140 - 2 * 60) (fixed_font 10)
      (fixed_font 5) 12 (-0.5) in
  exists w',
    insert_line_on demo_engine (fixed_font 10) (fixed_font 5) 12 (-0.5)
      [0; 0; 0] 0 60 8 (txt "center") (txt "ABCDE") page
      {| calls := []; logged := [] |}
    = Some w' /\
    (line_width <= 140 - 2 * 60 ->
     exists r, calls w' = [] ++ r /\
               is_row 0 (842 - 8) (txt "ABCDE") r /\
               (r = [] <-> txt "ABCDE" = [])) /\
    (~ line_width <= 140 - 2 * 60 ->
     exists r1 r2,
       calls w' = [] ++ r1 ++ r2 /\
       is_row 0 (842 - 8 - 12 - 2) (fst parts) r1 /\
       is_row 0 (842 - 8) (snd parts) r2 /\
       (r1 = [] <-> txt "ABCDE" = []) /\
       (r2 = [] <-> snd parts = [])).
Proof.
  apply (insert_line_on_rows demo_engine (fixed_font 10) (fixed_font 5) 12
           (-0.5) [0; 0; 0] 0 60 8 (txt "center") (txt "ABCDE")
           {| rect_width := 140; rect_height := 842 |}
           {| calls := []; logged := [] |}).
  - unfold valid_align. simpl. auto.
  - intros c _ Hcolor. simpl. rewrite Hcolor. reflexivity.
Defined.

(** C5 as stated fails: the line [A] is wider than the allowed width 1, so
    it is split; its suffix is empty, and the only call of [insert_text]
    draws [A] at height [base_y - font_size - 2]: one row, and nothing at
    height [base_y]. *)
Lemma one_character_line_draws_one_row :
  let page := {| rect_width := 121; rect_height := 842 |} in
  exists w',
    insert_line_on demo_engine (fixed_font 10) (fixed_font 5) 12 (-0.5)
      [0; 0; 0] 0 60 8 (txt "center") (txt "A") page
      {| calls := []; logged := [] |}
    = Some w' /\
    ~ compute_line_width (txt "A") (fixed_font 10) (fixed_font 5) 12 (-0.5)
      <= 121 - 2 * 60 /\
    (exists c, calls w' = [c] /\ ins_text c = txt "A" /\
               ins_y c == 842 - 8 - 12 - 2) /\
    Forall (fun c => ~ ins_y c == 842 - 8) (calls w').
Proof.
  eexists. split; [vm_compute; reflexivity|]. split.
  - vm_compute. intros H. apply H. reflexivity.
  - split.
    + eexists. split; [reflexivity|]. split; [reflexivity|].
      vm_compute. reflexivity.
    + repeat constructor. vm_compute. discriminate.
Qed.

(** ** The run with an engine that may refuse *)


(** C9. When the inputs parse, the file is read, the document opens, the
    fonts load, and the engine accepts text of the configured size and
    color, the table of contents and the closing of the document,
    [perform_insertion] completes, and with
    [count = min(len(lines), page_count)]: the table of contents has
    exactly [count] entries, the entry of index [i] being
    [[1, lines[i], i + 1]]; the lines announced are [lines[i]] for page
    number [i + 1], in order, for [i < count]; page [i < count] receives
    the text [lines[i]], and the pages beyond receive no text. *)
Theorem perform_insertion_on_assignments (R : Engine) (E : Env)
    (input_pdf overlay_txt output_pdf : text)
    (insert_x insert_y font_size color_str text_align : text)
    (x y size : Q) (raw : list text) (doc : list Page)
    (chinese_font_obj latin_font_obj : Font) :
  py_float E insert_x = Some x ->
  py_float E insert_y = Some y ->
  py_float E font_size = Some size ->
  path_exists E overlay_txt = true ->
  file_lines E overlay_txt = Some raw ->
  fitz_open E input_pdf = Some doc ->
  fitz_Font E chinese_font_name = Some chinese_font_obj ->
  fitz_Font E latin_font_name = Some latin_font_obj ->
  (forall c, ins_fontsize c = size ->
             ins_color c = fst (parse_color E color_str) ->
             accepts_text R c = true) ->
  let lines := read_lines E raw in
  let count := Nat.min (length lines) (length doc) in
  let toc := map (fun i => (1, nth i lines [], i + 1)%nat) (seq 0 count) in
  accepts_toc R toc = true ->
  closes R = true ->
  exists w saved,
    perform_insertion_on R E input_pdf overlay_txt output_pdf insert_x
      insert_y font_size color_str text_align
    = Completed w toc saved /\
    length toc = count /\
    announced (logged w)
    = map (fun i => ((i + 1)%nat, nth i lines [])) (seq 0 count) /\
    (forall i, text_on_page i (calls w)
               = if Nat.ltb i count then nth i lines [] else []).
Proof.
  intros Hx Hy Hsize Hpath Hfile Hopen Hwide Hnarrow Haccepted lines count
    toc Htoc Hcloses.
  destruct (accepting_run_assignments E input_pdf overlay_txt output_pdf
              insert_x insert_y font_size color_str text_align x y size raw
              doc chinese_font_obj latin_font_obj Hx Hy Hsize Hpath Hfile
              Hopen Hwide Hnarrow)
    as (w & saved & Hrun & Hlen & Hann & Htext).
  fold lines in Hrun, Hlen, Hann, Htext.
  fold count in Hrun, Hlen, Hann, Htext. fold toc in Hrun, Hlen.
  exists w, saved. rewrite perform_insertion_on_accepting, Hrun.
  assert (Hcalls : forallb (accepts_text R) (calls w) = true).
  { pose proof Hrun as Hrun'.
    rewrite (perform_insertion_configured E input_pdf overlay_txt output_pdf
               insert_x insert_y font_size color_str text_align x y size
               Hx Hy Hsize) in Hrun'.
    apply after_config_completed in Hrun'.
    destruct Hrun' as (doc' & r & _ & Hr & Hmade & _).
    rewrite Hr. rewrite forallb_app. apply andb_true_iff. split.
    - now destruct (snd (parse_color E color_str)).
    - apply forallb_forall. intros c Hc.
      rewrite Forall_forall in Hmade.
      destruct (Hmade c Hc) as (_ & _ & Hs & Hcol).
      now apply Haccepted. }
  rewrite Hcalls, Htoc, Hcloses.
  repeat split; assumption.
Qed.

Lemma perform_insertion_on_assignments_witness :
  let E := demo_env [txt "one"; txt " "; txt "two "; txt "three"]
                    [a4; a4; a4; a4; a4] in
  let lines := [txt "one"; txt "two"; txt "three"] in
  exists w saved,
    perform_insertion_on demo_engine E
      (txt "in.pdf") (txt "lines.txt") (txt "out.pdf")
      (txt "60") (txt "8") (txt "12") (txt "0,0,0") (txt "center")
    = Completed w
        [(1, txt "one", 1); (1, txt "two", 2); (1, txt "three", 3)]%nat
        saved /\
    length [(1, txt "one", 1); (1, txt "two", 2); (1, txt "three", 3)]%nat
    = 3%nat /\
    announced (logged w)
    = [(1%nat, txt "one"); (2%nat, txt "two"); (3%nat, txt "three")] /\
    (forall i, text_on_page i (calls w)
               = if Nat.ltb i 3 then nth i lines [] else []).
Proof.
  apply (perform_insertion_on_assignments demo_engine
           (demo_env [txt "one"; txt " "; txt "two "; txt "three"]
                     [a4; a4; a4; a4; a4])
           (txt "in.pdf") (txt "lines.txt") (txt "out.pdf")
           (txt "60") (txt "8") (txt "12") (txt "0,0,0") (txt "center")
           60 8 12 [txt "one"; txt " "; txt "two "; txt "three"]
           [a4; a4; a4; a4; a4] (fixed_font 10) (fixed_font 5));
    try reflexivity.
  intros c _ Hcolor. simpl accepts_text. rewrite Hcolor. reflexivity.
Defined.

(** With the color [300,0,0] the first component is 300/255, the engine
    refuses the first insertion and the run ends by an exception. *)
Example color_out_of_range_raises :
  perform_insertion_on demo_engine (demo_env [txt "one"] [a4])
    (txt "in.pdf") (txt "lines.txt") (txt "out.pdf")
    (txt "60") (txt "8") (txt "12") (txt "300,0,0") (txt "center")
  = Raised.
Proof. vm_compute. reflexivity. Qed.


